(** * The set-operation planner and the append-relation expander of
      [src/backend/optimizer/prep/prepunion.c]

    A shallow embedding of the planner code that turns UNION / INTERSECT /
    EXCEPT trees into paths, expands inheritance and partition hierarchies
    into append relations, and translates parent expressions to a child.

    Conventions used throughout:
    - C integers are [Z]; a narrowing cast is written out ([AttrNumber_of_int]).
    - C [double] is IEEE binary64, i.e. Rocq's primitive [float].
    - A nullable pointer is an [option].
    - [ereport(ERROR, ...)] and [elog(ERROR, ...)] unwind the whole planning
      call: functions that can raise return a [Res], and [Trap] stands for a
      dereference of a NULL list cell (undefined behaviour in C).
    - [Assert]s are compiled out, as in a production build. *)

From Stdlib Require Import ZArith List Bool String Lia.
From Stdlib Require Import Floats.PrimFloat.
From Stdlib Require Uint63.
From stdpp Require Import base option list gmap.

Set Warnings "-register-all,-clear-no-such-hyp".

Local Open Scope Z_scope.

(** ** Errors *)

Module Err.

Inductive ErrCode :=
| ERRCODE_INTERNAL_ERROR        (* what elog(ERROR, ...) reports *)
| ERRCODE_FEATURE_NOT_SUPPORTED
| ERRCODE_EXTERNAL (code : Z).  (* raised inside a collaborator *)

(** Arguments substituted for the [%d] / [%s] directives of a message. *)
Inductive ErrArg :=
| A_int (n : Z)
| A_str (s : string)
| A_relname (reloid : Z).       (* get_rel_name(reloid) *)

Record PgError := mkError {
  sqlerrcode : ErrCode;
  errmsg : string;
  errargs : list ErrArg;
  errdetail : option string
}.

Inductive Res (A : Type) :=
| Ok (a : A)
| Raise (e : PgError)
| Trap.
Arguments Ok {A} a.
Arguments Raise {A} e.
Arguments Trap {A}.

Definition elog_ERROR {A} (fmt : string) (args : list ErrArg) : Res A :=
  Raise (mkError ERRCODE_INTERNAL_ERROR fmt args None).

Definition ereport_ERROR {A} (code : ErrCode) (fmt : string)
    (args : list ErrArg) (detail : string) : Res A :=
  Raise (mkError code fmt args (Some detail)).

Definition rbind {A B} (m : Res A) (k : A -> Res B) : Res B :=
  match m with
  | Ok a => k a
  | Raise e => Raise e
  | Trap => Trap
  end.

Definition is_Ok {A} (m : Res A) : bool :=
  match m with Ok _ => true | _ => false end.

End Err.
Import Err.

Declare Scope res_scope.
Delimit Scope res_scope with res.
Notation "'let?' x := c1 'in' c2" := (rbind c1 (fun x => c2))
  (at level 10, x pattern, c1 at level 100, c2 at level 200) : res_scope.
Local Open Scope res_scope.

(** ** Parse and plan nodes (the fields this file reads or writes) *)

Module Nodes.

(** Oid and Index are unsigned int, AttrNumber is int16, int32 is int: all
    are carried as [Z]. *)

Definition InvalidOid : Z := 0.
Definition OidIsValid (o : Z) : bool := negb (o =? InvalidOid).
Definition InvalidAttrNumber : Z := 0.
Definition INT4OID : Z := 23.

(** [(AttrNumber) n]: AttrNumber is int16. *)
Definition AttrNumber_of_int (n : Z) : Z :=
  (n + 32768) mod 65536 - 32768.

Inductive CoercionForm :=
| COERCE_EXPLICIT_CALL | COERCE_EXPLICIT_CAST | COERCE_IMPLICIT_CAST.

Record Var := mkVar {
  varno : Z;
  varattno : Z;
  vartype : Z;
  vartypmod : Z;
  varcollid : Z;
  varlevelsup : Z;
  varnoold : Z;
  varoattno : Z;
  location : Z
}.

(** makeVar of nodes/makefuncs.c: the old-number fields copy the new ones and
    the location is unknown. *)
Definition makeVar (varno varattno vartype vartypmod varcollid varlevelsup : Z)
    : Var :=
  mkVar varno varattno vartype vartypmod varcollid varlevelsup
        varno varattno (-1).

Record Const := mkConst {
  consttype : Z;
  consttypmod : Z;
  constcollid : Z;
  constlen : Z;
  constvalue : Z;
  constisnull : bool;
  constbyval : bool
}.

Definition makeConst (consttype consttypmod constcollid constlen constvalue : Z)
    (constisnull constbyval : bool) : Const :=
  mkConst consttype consttypmod constcollid constlen constvalue
          constisnull constbyval.

(** The relid sets of a RestrictInfo, and its cached derived fields. *)
Record RestrictRelids := mkRestrictRelids {
  clause_relids : gset Z;
  required_relids : gset Z;
  outer_relids : gset Z;
  nullable_relids : gset Z;
  left_relids : gset Z;
  right_relids : gset Z
}.

Record RestrictCache := mkRestrictCache {
  eval_cost_startup : float;
  norm_selec : float;
  outer_selec : float;
  left_em : option Z;
  right_em : option Z;
  scansel_cache : list Z;
  left_bucketsize : float;
  right_bucketsize : float
}.

(** Expression nodes.  [T_Expr] stands for every expression kind that
    [expression_tree_mutator] copies while recursing into its children. *)
Inductive Node :=
| T_Var (v : Var)
| T_Const (c : Const)
| T_RelabelType (arg : option Node) (resulttype resulttypmod resultcollid : Z)
                (relabelformat : CoercionForm)
| T_ConvertRowtypeExpr (arg : option Node) (resulttype : Z)
                       (convertformat : CoercionForm) (loc : Z)
| T_RowExpr (args : list (option Node)) (row_typeid : Z)
            (row_format : CoercionForm) (colnames : list string) (loc : Z)
| T_CurrentOfExpr (cvarno : Z) (cursor_name : string)
| T_RangeTblRef (rtindex : Z)
| T_JoinExpr (larg rarg quals : option Node) (rtindex : Z)
| T_PlaceHolderVar (phexpr : option Node) (phrels : gset Z)
                   (phid phlevelsup : Z)
| T_RestrictInfo (clause orclause : option Node) (relids : RestrictRelids)
                 (cache : RestrictCache)
| T_Expr (tag : Z) (children : list (option Node)).

Definition makeRelabelType (arg : option Node) (rtype rtypmod rcollid : Z)
    (rformat : CoercionForm) : Node :=
  T_RelabelType arg rtype rtypmod rcollid rformat.

Record TargetEntry := mkTargetEntry {
  expr : option Node;
  resno : Z;
  resname : string;
  ressortgroupref : Z;
  resjunk : bool
}.

(** makeTargetEntry of nodes/makefuncs.c: no sort/group reference yet. *)
Definition makeTargetEntry (e : option Node) (resno : Z) (resname : string)
    (resjunk : bool) : TargetEntry :=
  mkTargetEntry e resno resname 0 resjunk.

Definition set_ressortgroupref (tle : TargetEntry) (r : Z) : TargetEntry :=
  mkTargetEntry (expr tle) (resno tle) (resname tle) r (resjunk tle).

Record SortGroupClause := mkSGC {
  tleSortGroupRef : Z;
  eqop : Z;
  sortop : Z;
  nulls_first : bool;
  hashable : bool
}.

Definition set_tleSortGroupRef (sgc : SortGroupClause) (r : Z) : SortGroupClause :=
  mkSGC r (eqop sgc) (sortop sgc) (nulls_first sgc) (hashable sgc).

Inductive RTEKind := RTE_RELATION | RTE_SUBQUERY | RTE_OTHER (k : Z).

(** The fields of a leaf subquery that the set-operation planner reads. *)
Record Query := mkQuery {
  targetList : list TargetEntry;
  groupClause : list SortGroupClause;
  groupingSets : list Z;
  distinctClause : list SortGroupClause;
  hasAggs : bool
}.

(** relkind is a char of pg_class.h. *)
Definition RELKIND_RELATION : Z := 114.           (* 'r' *)
Definition RELKIND_PARTITIONED_TABLE : Z := 112.  (* 'p' *)

Record RangeTblEntry := mkRTE {
  rtekind : RTEKind;
  relid : Z;
  relkind : Z;
  inh : bool;
  requiredPerms : Z;
  selectedCols : gset Z;
  insertedCols : gset Z;
  updatedCols : gset Z;
  securityQuals : list Node;
  eref_colnames : list string;
  subquery : option Query
}.

Record AppendRelInfo := mkAppendRelInfo {
  parent_relid : Z;
  child_relid : Z;
  parent_reltype : Z;
  child_reltype : Z;
  translated_vars : list (option Node);
  parent_reloid : Z
}.

(** list_nth of nodes/list.c; walking past the end dereferences NULL. *)
Definition list_nth {A} (l : list A) (n : Z) : Res A :=
  if n <? 0 then Trap
  else match l !! Z.to_nat n with
       | Some x => Ok x
       | None => Trap
       end.

(** rt_fetch(rangetable_index, rangetable) of parser/parsetree.h. *)
Definition rt_fetch (rti : Z) (rtable : list RangeTblEntry) : Res RangeTblEntry :=
  list_nth rtable (rti - 1).

Definition dquote : string := String (Ascii.ascii_of_nat 34) EmptyString.

End Nodes.
Import Nodes.

(** ** Bitmapsets *)

Module Bms.

(** A Bitmapset is a finite set of non-negative integers; asking about or
    adding a negative member is an error (nodes/bitmapset.c). *)
Definition bms_is_member (x : Z) (a : gset Z) : Res bool :=
  if x <? 0 then elog_ERROR "negative bitmapset member not allowed" []
  else Ok (bool_decide (x ∈ a)).

Definition bms_add_member (a : gset Z) (x : Z) : Res (gset Z) :=
  if x <? 0 then elog_ERROR "negative bitmapset member not allowed" []
  else Ok ({[ x ]} ∪ a).

Definition bms_del_member (a : gset Z) (x : Z) : Res (gset Z) :=
  if x <? 0 then elog_ERROR "negative bitmapset member not allowed" []
  else Ok (a ∖ {[ x ]}).

End Bms.
Import Bms.

(** ** Column privileges of an inheritance child *)

Module ColPrivs.
Section ColPrivs.

(** access/sysattr.h is not part of the sample: the lowest system attribute
    number is a parameter. *)
Variable FirstLowInvalidHeapAttributeNumber : Z.
Local Abbreviation FLI := FirstLowInvalidHeapAttributeNumber.

(** The first loop of translate_col_privs: one step for one system attribute
    number. *)
Definition copy_system_bit (parent_privs : gset Z) (child_privs : gset Z)
    (attno : Z) : Res (gset Z) :=
  let? m := bms_is_member (attno - FLI) parent_privs in
  if m then bms_add_member child_privs (attno - FLI) else Ok child_privs.

Fixpoint copy_system_bits (parent_privs : gset Z) (attnos : list Z)
    (child_privs : gset Z) : Res (gset Z) :=
  match attnos with
  | [] => Ok child_privs
  | attno :: rest =>
      let? child_privs := copy_system_bit parent_privs child_privs attno in
      copy_system_bits parent_privs rest child_privs
  end.

(** The second loop: [attno] is the value before the [attno++] of the
    iteration. *)
Fixpoint translate_user_bits (parent_privs : gset Z) (whole_row : bool)
    (translated_vars : list (option Var)) (attno : Z) (child_privs : gset Z)
    : Res (gset Z) :=
  match translated_vars with
  | [] => Ok child_privs
  | var :: rest =>
      let attno := attno + 1 in
      match var with
      | None => translate_user_bits parent_privs whole_row rest attno child_privs
      | Some var =>
          let? hit :=
            (if whole_row then Ok true
             else bms_is_member (attno - FLI) parent_privs) in
          let? child_privs :=
            (if hit then bms_add_member child_privs (varattno var - FLI)
             else Ok child_privs) in
          translate_user_bits parent_privs whole_row rest attno child_privs
      end
  end.

Definition translate_col_privs (parent_privs : gset Z)
    (translated_vars : list (option Var)) : Res (gset Z) :=
  let child_privs : gset Z := ∅ in
  (* for (attno = FirstLow + 1; attno < 0; attno++) *)
  let? child_privs :=
    copy_system_bits parent_privs (seqZ (FLI + 1) (- FLI - 1)) child_privs in
  let? whole_row := bms_is_member (InvalidAttrNumber - FLI) parent_privs in
  translate_user_bits parent_privs whole_row translated_vars
                      InvalidAttrNumber child_privs.


(** *** Properties of translate_col_privs *)

Lemma bms_is_member_nonneg (x : Z) (a : gset Z) :
  0 <= x -> bms_is_member x a = Ok (bool_decide (x ∈ a)).
Proof.
  intros Hx. unfold bms_is_member.
  destruct (Z.ltb_spec x 0); [lia | reflexivity].
Qed.

Lemma bms_add_member_nonneg (a : gset Z) (x : Z) :
  0 <= x -> bms_add_member a x = Ok ({[ x ]} ∪ a).
Proof.
  intros Hx. unfold bms_add_member.
  destruct (Z.ltb_spec x 0); [lia | reflexivity].
Qed.

Lemma copy_system_bits_spec (parent_privs : gset Z) (attnos : list Z) :
  forall child_privs : gset Z,
  (forall attno, attno ∈ attnos -> FLI <= attno) ->
  exists child' : gset Z,
    copy_system_bits parent_privs attnos child_privs = Ok child' /\
    forall b, b ∈ child' <->
      b ∈ child_privs \/
      exists attno, attno ∈ attnos /\ b = attno - FLI /\ b ∈ parent_privs.
Proof.
  induction attnos as [|attno rest IH]; intros child_privs Hge.
  - exists child_privs. split; [reflexivity|].
    intros b. split; [auto|]. intros [H|(a & Ha & _)]; [done|].
    by apply elem_of_nil in Ha.
  - assert (Hhd : FLI <= attno) by (apply Hge; left).
    cbn [copy_system_bits]. unfold copy_system_bit.
    rewrite bms_is_member_nonneg by lia. cbn [rbind].
    destruct (bool_decide (attno - FLI ∈ parent_privs)) eqn:Hm.
    + rewrite bms_add_member_nonneg by lia. cbn [rbind].
      apply bool_decide_eq_true in Hm.
      destruct (IH ({[attno - FLI]} ∪ child_privs)) as (c & Hc & Hspec).
      { intros a Ha. apply Hge. by right. }
      exists c. split; [exact Hc|]. intros b. rewrite Hspec.
      split.
      * intros [Hb|(a & Ha & -> & Hp)].
        -- apply elem_of_union in Hb as [Hb|Hb]; [|by left].
           apply elem_of_singleton in Hb as ->.
           right. exists attno. split; [left|done].
        -- right. exists a. split; [by right|done].
      * intros [Hb|(a & Ha & -> & Hp)].
        -- left. set_solver.
        -- apply elem_of_cons in Ha as [->|Ha].
           ++ left. set_solver.
           ++ right. exists a. done.
    + cbn [rbind]. apply bool_decide_eq_false in Hm.
      destruct (IH child_privs) as (c & Hc & Hspec).
      { intros a Ha. apply Hge. by right. }
      exists c. split; [exact Hc|]. intros b. rewrite Hspec.
      split.
      * intros [Hb|(a & Ha & -> & Hp)]; [by left|].
        right. exists a. split; [by right|done].
      * intros [Hb|(a & Ha & -> & Hp)]; [by left|].
        apply elem_of_cons in Ha as [->|Ha]; [done|].
        right. exists a. done.
Qed.

Lemma translate_user_bits_spec (parent_privs : gset Z) (whole_row : bool)
    (translated_vars : list (option Var)) :
  forall (attno : Z) (child_privs : gset Z),
  FLI <= 1 -> 0 <= attno ->
  (forall (i : nat) var,
      translated_vars !! i = Some (Some var) -> FLI <= varattno var) ->
  exists child' : gset Z,
    translate_user_bits parent_privs whole_row translated_vars attno child_privs
      = Ok child' /\
    forall b, b ∈ child' <->
      b ∈ child_privs \/
      exists (i : nat) var,
        translated_vars !! i = Some (Some var) /\
        b = varattno var - FLI /\
        (whole_row = true \/ (attno + 1 + Z.of_nat i - FLI) ∈ parent_privs).
Proof.
  induction translated_vars as [|slot rest IH]; intros attno child_privs HF Ha Hv.
  - exists child_privs. split; [reflexivity|].
    intros b. split; [auto|]. intros [H|(i & v & Hl & _)]; [done|].
    by rewrite lookup_nil in Hl.
  - cbn [translate_user_bits].
    assert (Hrest : forall (i : nat) var,
               rest !! i = Some (Some var) -> FLI <= varattno var).
    { intros i v Hl. apply (Hv (S i) v). exact Hl. }
    destruct slot as [var|].
    + assert (Hvar : FLI <= varattno var) by (apply (Hv 0%nat var); reflexivity).
      assert (Hhit : (if whole_row then Ok true
                      else bms_is_member (attno + 1 - FLI) parent_privs)
                     = Ok (whole_row || bool_decide (attno + 1 - FLI ∈ parent_privs))).
      { destruct whole_row; [reflexivity|].
        rewrite bms_is_member_nonneg by lia. reflexivity. }
      rewrite Hhit. cbn [rbind].
      destruct (whole_row || bool_decide (attno + 1 - FLI ∈ parent_privs)) eqn:Hh.
      * rewrite bms_add_member_nonneg by lia. cbn [rbind].
        destruct (IH (attno + 1) ({[varattno var - FLI]} ∪ child_privs))
          as (c & Hc & Hspec); [lia|lia|exact Hrest|].
        exists c. split; [exact Hc|]. intros b. rewrite Hspec.
        apply orb_true_iff in Hh.
        split.
        -- intros [Hb|(i & v & Hl & -> & Hw)].
           ++ apply elem_of_union in Hb as [Hb|Hb]; [|by left].
              apply elem_of_singleton in Hb as ->.
              right. exists 0%nat, var. split; [reflexivity|]. split; [reflexivity|].
              destruct Hh as [Hh|Hh]; [by left|right].
              apply bool_decide_eq_true in Hh.
              by replace (attno + 1 + Z.of_nat 0 - FLI) with (attno + 1 - FLI) by lia.
           ++ right. exists (S i), v. split; [exact Hl|]. split; [reflexivity|].
              destruct Hw as [Hw|Hw]; [by left|right].
              by replace (attno + 1 + Z.of_nat (S i) - FLI)
                   with (attno + 1 + 1 + Z.of_nat i - FLI) by lia.
        -- intros [Hb|(i & v & Hl & -> & Hw)].
           ++ left. set_solver.
           ++ destruct i as [|i].
              ** injection Hl as ->. left. set_solver.
              ** right. exists i, v. split; [exact Hl|]. split; [reflexivity|].
                 destruct Hw as [Hw|Hw]; [by left|right].
                 by replace (attno + 1 + 1 + Z.of_nat i - FLI)
                      with (attno + 1 + Z.of_nat (S i) - FLI) by lia.
      * cbn [rbind].
        destruct (IH (attno + 1) child_privs)
          as (c & Hc & Hspec); [lia|lia|exact Hrest|].
        exists c. split; [exact Hc|]. intros b. rewrite Hspec.
        apply orb_false_iff in Hh as [Hw0 Hm0].
        apply bool_decide_eq_false in Hm0.
        split.
        -- intros [Hb|(i & v & Hl & -> & Hw)]; [by left|].
           right. exists (S i), v. split; [exact Hl|]. split; [reflexivity|].
           destruct Hw as [Hw|Hw]; [by left|right].
           by replace (attno + 1 + Z.of_nat (S i) - FLI)
                with (attno + 1 + 1 + Z.of_nat i - FLI) by lia.
        -- intros [Hb|(i & v & Hl & -> & Hw)]; [by left|].
           destruct i as [|i].
           ++ injection Hl as ->. exfalso.
              destruct Hw as [Hw|Hw]; [congruence|].
              apply Hm0.
              by replace (attno + 1 - FLI) with (attno + 1 + Z.of_nat 0 - FLI) by lia.
           ++ right. exists i, v. split; [exact Hl|]. split; [reflexivity|].
              destruct Hw as [Hw|Hw]; [by left|right].
              by replace (attno + 1 + 1 + Z.of_nat i - FLI)
                   with (attno + 1 + Z.of_nat (S i) - FLI) by lia.
    + destruct (IH (attno + 1) child_privs)
        as (c & Hc & Hspec); [lia|lia|exact Hrest|].
      exists c. split; [exact Hc|]. intros b. rewrite Hspec.
      split.
      * intros [Hb|(i & v & Hl & -> & Hw)]; [by left|].
        right. exists (S i), v. split; [exact Hl|]. split; [reflexivity|].
        destruct Hw as [Hw|Hw]; [by left|right].
        by replace (attno + 1 + Z.of_nat (S i) - FLI)
             with (attno + 1 + 1 + Z.of_nat i - FLI) by lia.
      * intros [Hb|(i & v & Hl & -> & Hw)]; [by left|].
        destruct i as [|i]; [discriminate Hl|].
        right. exists i, v. split; [exact Hl|]. split; [reflexivity|].
        destruct Hw as [Hw|Hw]; [by left|right].
        by replace (attno + 1 + 1 + Z.of_nat i - FLI)
             with (attno + 1 + Z.of_nat (S i) - FLI) by lia.
Qed.

(** The exact content of the child's set. *)
Lemma translate_col_privs_content (parent_privs : gset Z)
    (translated_vars : list (option Var)) :
  FLI < 0 ->
  (forall (i : nat) var,
      translated_vars !! i = Some (Some var) -> 0 < varattno var) ->
  exists child : gset Z,
    translate_col_privs parent_privs translated_vars = Ok child /\
    forall b, b ∈ child <->
      (0 < b < - FLI /\ b ∈ parent_privs) \/
      exists (i : nat) var,
        translated_vars !! i = Some (Some var) /\
        b = varattno var - FLI /\
        ((- FLI) ∈ parent_privs \/ (Z.of_nat i + 1 - FLI) ∈ parent_privs).
Proof.
  intros HF Hpos. unfold translate_col_privs.
  destruct (copy_system_bits_spec parent_privs (seqZ (FLI + 1) (- FLI - 1)) ∅)
    as (c1 & Hc1 & Hs1).
  { intros a Ha. apply elem_of_seqZ in Ha. lia. }
  rewrite Hc1. cbn [rbind].
  rewrite bms_is_member_nonneg by (unfold InvalidAttrNumber; lia). cbn [rbind].
  destruct (translate_user_bits_spec parent_privs
              (bool_decide (InvalidAttrNumber - FLI ∈ parent_privs))
              translated_vars InvalidAttrNumber c1) as (c2 & Hc2 & Hs2).
  { lia. } { unfold InvalidAttrNumber; lia. }
  { intros i v Hl. specialize (Hpos i v Hl). lia. }
  exists c2. split; [exact Hc2|]. intros b. rewrite Hs2, Hs1.
  unfold InvalidAttrNumber. replace (0 - FLI) with (- FLI) by lia.
  split.
  - intros [[Hb|(a & Ha & -> & Hp)]|(i & v & Hl & -> & Hw)].
    + by apply not_elem_of_empty in Hb.
    + left. apply elem_of_seqZ in Ha. split; [lia|done].
    + right. exists i, v. split; [exact Hl|]. split; [reflexivity|].
      destruct Hw as [Hw|Hw].
      * left. by apply bool_decide_eq_true in Hw.
      * right. by replace (Z.of_nat i + 1 - FLI) with (0 + 1 + Z.of_nat i - FLI) by lia.
  - intros [[Hr Hp]|(i & v & Hl & -> & Hw)].
    + left. right. exists (b + FLI). split; [apply elem_of_seqZ; lia|].
      split; [lia|done].
    + right. exists i, v. split; [exact Hl|]. split; [reflexivity|].
      destruct Hw as [Hw|Hw].
      * left. by apply bool_decide_eq_true.
      * right. by replace (0 + 1 + Z.of_nat i - FLI) with (Z.of_nat i + 1 - FLI) by lia.
Qed.


(** C10. translate_col_privs never sets the whole-row bit in the child's set;
    a parent whole-row bit becomes the per-column bit of every live
    (non-dropped) translated column; system-attribute bits are copied with
    unchanged numbers; every other bit of the result comes from a live slot of
    the translation list, so dropped slots contribute nothing; and a parent
    per-column bit becomes the bit of the child attribute number recorded at
    that position.  The translated Vars carry user attribute numbers, as
    make_inh_translation_list builds them. *)
Theorem translate_col_privs_whole_row_free (parent_privs : gset Z)
    (translated_vars : list (option Var)) :
  FLI < 0 ->
  (forall (i : nat) var,
      translated_vars !! i = Some (Some var) -> 0 < varattno var) ->
  exists child : gset Z,
    translate_col_privs parent_privs translated_vars = Ok child /\
    ((InvalidAttrNumber - FLI) ∉ child) /\
    ((InvalidAttrNumber - FLI) ∈ parent_privs ->
       forall (i : nat) var, translated_vars !! i = Some (Some var) ->
         (varattno var - FLI) ∈ child) /\
    (forall attno, FLI < attno < 0 ->
       ((attno - FLI) ∈ child <-> (attno - FLI) ∈ parent_privs)) /\
    (forall b, b ∈ child -> InvalidAttrNumber - FLI < b ->
       exists (i : nat) var,
         translated_vars !! i = Some (Some var) /\ b = varattno var - FLI /\
         ((InvalidAttrNumber - FLI) ∈ parent_privs \/
          (Z.of_nat i + 1 - FLI) ∈ parent_privs)) /\
    (forall (i : nat) var, translated_vars !! i = Some (Some var) ->
       (Z.of_nat i + 1 - FLI) ∈ parent_privs -> (varattno var - FLI) ∈ child).
Proof.
  intros HF Hpos.
  destruct (translate_col_privs_content parent_privs translated_vars HF Hpos)
    as (child & Hrun & Hin).
  exists child. split; [exact Hrun|].
  unfold InvalidAttrNumber. replace (0 - FLI) with (- FLI) by lia.
  repeat split.
  - intros Hb. apply Hin in Hb as [[Hr _]|(i & v & Hl & Hb & _)]; [lia|].
    specialize (Hpos i v Hl). lia.
  - intros Hw i v Hl. apply Hin. right. exists i, v. auto.
  - intros Hb. apply Hin in Hb as [[_ Hp]|(i & v & Hl & Hb & _)]; [done|].
    specialize (Hpos i v Hl). lia.
  - intros Hp. apply Hin. left. split; [lia|done].
  - intros b Hb Hgt. apply Hin in Hb as [[Hr _]|(i & v & Hl & Hb & Hw)]; [lia|].
    exists i, v. auto.
  - intros i v Hl Hp. apply Hin. right. exists i, v. auto.
Qed.

End ColPrivs.

(** A parent with a dropped second column: whole-row and column 1 selected,
    system attribute -1 selected, lowest system attribute number -8. *)
Definition sample_translated_vars : list (option Var) :=
  [Some (makeVar 5 2 23 (-1) 0 0); None; Some (makeVar 5 1 25 (-1) 100 0)].

Example translate_col_privs_sample :
  translate_col_privs (-8) {[ 7; 8; 9 ]} sample_translated_vars
  = Ok {[ 7; 9; 10 ]}.
Proof. vm_compute. reflexivity. Qed.

Lemma translate_col_privs_whole_row_free_witness :
  exists child : gset Z,
    translate_col_privs (-8) {[ 7; 8; 9 ]} sample_translated_vars = Ok child /\
    ((InvalidAttrNumber - (-8)) ∉ child).
Proof.
  destruct (translate_col_privs_whole_row_free (-8) {[ 7; 8; 9 ]}
              sample_translated_vars) as (child & Hrun & Hnot & _).
  - lia.
  - intros [|[|[|i]]] var Hl; cbn in Hl; try discriminate;
      injection Hl as <-; cbn; lia.
  - exists child. split; assumption.
Defined.

End ColPrivs.

(** ** Translating parent expressions to an append-relation child *)

Module Adjust.

Section mapM.
Context {A B : Type} (f : A -> Res B).

Fixpoint mapM (l : list A) : Res (list B) :=
  match l with
  | [] => Ok []
  | x :: rest =>
      let? y := f x in
      let? ys := mapM rest in
      Ok (y :: ys)
  end.

End mapM.

(** adjust_appendrel_attrs_context; [nappinfos] is the length of the array. *)
Record adjust_appendrel_attrs_context := mkContext {
  root_rtable : list RangeTblEntry;    (* context->root->parse->rtable *)
  appinfos : list AppendRelInfo
}.

Definition nappinfos (context : adjust_appendrel_attrs_context) : Z :=
  Z.of_nat (length (appinfos context)).

(** The scan [for (cnt = 0; cnt < nappinfos; cnt++) if (id == parent) break]. *)
Fixpoint find_parent (id : Z) (appinfos : list AppendRelInfo)
    : option AppendRelInfo :=
  match appinfos with
  | [] => None
  | appinfo :: rest =>
      if id =? parent_relid appinfo then Some appinfo
      else find_parent id rest
  end.

Definition no_such_attribute {A} (attno : Z) (appinfo : AppendRelInfo) : Res A :=
  elog_ERROR ("attribute %d of relation " ++ dquote ++ "%s" ++ dquote
              ++ " does not exist")
             [A_int attno; A_relname (parent_reloid appinfo)].

Definition retarget (var : Var) (child : Z) : Var :=
  mkVar child (varattno var) (vartype var) (vartypmod var) (varcollid var)
        (varlevelsup var) child (varoattno var) (location var).

Definition set_vartype (var : Var) (t : Z) : Var :=
  mkVar (varno var) (varattno var) t (vartypmod var) (varcollid var)
        (varlevelsup var) (varnoold var) (varoattno var) (location var).

(** The IsA(node, Var) branch of adjust_appendrel_attrs_mutator. *)
Definition adjust_var (context : adjust_appendrel_attrs_context) (var : Var)
    : Res (option Node) :=
  (* var = copyObject(node) *)
  let appinfo := find_parent (varno var) (appinfos context) in
  (* if (var->varlevelsup == 0 && appinfo) *)
  match appinfo with
  | Some appinfo =>
      if varlevelsup var =? 0 then
        let var := retarget var (child_relid appinfo) in
        if varattno var >? 0 then
          if varattno var >? Z.of_nat (length (translated_vars appinfo)) then
            no_such_attribute (varattno var) appinfo
          else
            let? newnode := list_nth (translated_vars appinfo) (varattno var - 1) in
            match newnode with
            | None => no_such_attribute (varattno var) appinfo
            | Some newnode => Ok (Some newnode)
            end
        else if varattno var =? 0 then
          if OidIsValid (child_reltype appinfo) then
            if negb (parent_reltype appinfo =? child_reltype appinfo) then
              let var := set_vartype var (child_reltype appinfo) in
              Ok (Some (T_ConvertRowtypeExpr (Some (T_Var var))
                                             (parent_reltype appinfo)
                                             COERCE_IMPLICIT_CAST (-1)))
            else Ok (Some (T_Var var))
          else
            let? rte := rt_fetch (parent_relid appinfo) (root_rtable context) in
            let fields := translated_vars appinfo in
            Ok (Some (T_RowExpr fields (vartype var) COERCE_IMPLICIT_CAST
                                (eref_colnames rte) (-1)))
        else
          (* system attributes don't need any other translation *)
          Ok (Some (T_Var var))
      else Ok (Some (T_Var var))
  | None => Ok (Some (T_Var var))
  end.

(** One step of adjust_child_relids; [result] is NULL until the first change. *)
Definition adjust_child_relid (relids : gset Z) (result : option (gset Z))
    (appinfo : AppendRelInfo) : Res (option (gset Z)) :=
  let? m := bms_is_member (parent_relid appinfo) relids in
  if m then
    let result := match result with Some r => r | None => relids end in
    let? result := bms_del_member result (parent_relid appinfo) in
    let? result := bms_add_member result (child_relid appinfo) in
    Ok (Some result)
  else Ok result.

Fixpoint adjust_child_relids_loop (relids : gset Z) (result : option (gset Z))
    (appinfos : list AppendRelInfo) : Res (option (gset Z)) :=
  match appinfos with
  | [] => Ok result
  | appinfo :: rest =>
      let? result := adjust_child_relid relids result appinfo in
      adjust_child_relids_loop relids result rest
  end.

Definition adjust_child_relids (relids : gset Z) (appinfos : list AppendRelInfo)
    : Res (gset Z) :=
  let? result := adjust_child_relids_loop relids None appinfos in
  match result with
  | Some r => Ok r
  | None => Ok relids
  end.

Definition retarget_index (id : Z) (appinfos : list AppendRelInfo) : Z :=
  match find_parent id appinfos with
  | Some appinfo => child_relid appinfo
  | None => id
  end.

Definition adjust_restrict_relids (r : RestrictRelids)
    (appinfos : list AppendRelInfo) : Res RestrictRelids :=
  let? c := adjust_child_relids (clause_relids r) appinfos in
  let? q := adjust_child_relids (required_relids r) appinfos in
  let? o := adjust_child_relids (outer_relids r) appinfos in
  let? n := adjust_child_relids (nullable_relids r) appinfos in
  let? l := adjust_child_relids (left_relids r) appinfos in
  let? g := adjust_child_relids (right_relids r) appinfos in
  Ok (mkRestrictRelids c q o n l g).

Definition reset_cache : RestrictCache :=
  mkRestrictCache (-1)%float (-1)%float (-1)%float None None [] (-1)%float
                  (-1)%float.

(** adjust_appendrel_attrs_mutator on a non-NULL node.  The last branches are
    what expression_tree_mutator does with the node kinds of this model: copy
    the node and mutate each child. *)
Fixpoint mutate_node (context : adjust_appendrel_attrs_context) (node : Node)
    {struct node} : Res (option Node) :=
  let mutate_opt (n : option Node) : Res (option Node) :=
    match n with
    | None => Ok None
    | Some n => mutate_node context n
    end in
  match node with
  | T_Var var => adjust_var context var
  | T_CurrentOfExpr cvarno name =>
      Ok (Some (T_CurrentOfExpr (retarget_index cvarno (appinfos context)) name))
  | T_RangeTblRef rtindex =>
      Ok (Some (T_RangeTblRef (retarget_index rtindex (appinfos context))))
  | T_JoinExpr larg rarg quals rtindex =>
      let? larg := mutate_opt larg in
      let? rarg := mutate_opt rarg in
      let? quals := mutate_opt quals in
      Ok (Some (T_JoinExpr larg rarg quals
                           (retarget_index rtindex (appinfos context))))
  | T_PlaceHolderVar phexpr phrels phid phlevelsup =>
      let? phexpr := mutate_opt phexpr in
      let? phrels :=
        (if phlevelsup =? 0 then adjust_child_relids phrels (appinfos context)
         else Ok phrels) in
      Ok (Some (T_PlaceHolderVar phexpr phrels phid phlevelsup))
  | T_RestrictInfo clause orclause relids _ =>
      let? clause := mutate_opt clause in
      let? orclause := mutate_opt orclause in
      let? relids := adjust_restrict_relids relids (appinfos context) in
      Ok (Some (T_RestrictInfo clause orclause relids reset_cache))
  | T_Const c => Ok (Some (T_Const c))
  | T_RelabelType arg t tm coll f =>
      let? arg := mutate_opt arg in
      Ok (Some (T_RelabelType arg t tm coll f))
  | T_ConvertRowtypeExpr arg t f loc =>
      let? arg := mutate_opt arg in
      Ok (Some (T_ConvertRowtypeExpr arg t f loc))
  | T_RowExpr args t f names loc =>
      let? args := mapM mutate_opt args in
      Ok (Some (T_RowExpr args t f names loc))
  | T_Expr tag children =>
      let? children := mapM mutate_opt children in
      Ok (Some (T_Expr tag children))
  end.

Definition adjust_appendrel_attrs_mutator (node : option Node)
    (context : adjust_appendrel_attrs_context) : Res (option Node) :=
  match node with
  | None => Ok None
  | Some node => mutate_node context node
  end.

(** adjust_appendrel_attrs on a bare expression tree.  (For a Query the same
    mutator is applied to every expression of the query by
    query_tree_mutator.) *)
Definition adjust_appendrel_attrs (rtable : list RangeTblEntry)
    (node : option Node) (appinfos : list AppendRelInfo) : Res (option Node) :=
  adjust_appendrel_attrs_mutator node (mkContext rtable appinfos).


(** *** Properties of the Var branch *)

Lemma list_nth_lookup {A} (l : list A) (n : Z) (x : A) :
  0 <= n -> l !! Z.to_nat n = Some x -> list_nth l n = Ok x.
Proof.
  intros Hn Hl. unfold list_nth.
  destruct (Z.ltb_spec n 0); [lia|]. by rewrite Hl.
Qed.

(** C8. A level-zero Var of a mapped parent relation: a positive attribute
    number is replaced by the map's expression at that position, with an
    internal error when the position is past the end of the map or the slot
    is the dropped-column sentinel; attribute number zero gives the child Var
    under a ConvertRowtypeExpr to the parent's rowtype when the child has a
    valid composite type other than the parent's, the bare retargeted Var when
    that valid type is the parent's, and a RowExpr over the translated columns
    with the parent RTE's column names when the child has no valid composite
    type; a negative attribute number is only retargeted. *)
Theorem adjust_var_level_zero (context : adjust_appendrel_attrs_context)
    (var : Var) (appinfo : AppendRelInfo) :
  varlevelsup var = 0 ->
  find_parent (varno var) (appinfos context) = Some appinfo ->
  let result := adjust_appendrel_attrs_mutator (Some (T_Var var)) context in
  let child_var := retarget var (child_relid appinfo) in
  let map := translated_vars appinfo in
  (0 < varattno var ->
     (Z.of_nat (length map) < varattno var ->
        result = no_such_attribute (varattno var) appinfo) /\
     (map !! Z.to_nat (varattno var - 1) = Some None ->
        result = no_such_attribute (varattno var) appinfo) /\
     (forall e, map !! Z.to_nat (varattno var - 1) = Some (Some e) ->
        result = Ok (Some e))) /\
  (varattno var = 0 ->
     (OidIsValid (child_reltype appinfo) = true ->
      parent_reltype appinfo <> child_reltype appinfo ->
        result = Ok (Some (T_ConvertRowtypeExpr
                             (Some (T_Var (set_vartype child_var
                                                       (child_reltype appinfo))))
                             (parent_reltype appinfo)
                             COERCE_IMPLICIT_CAST (-1)))) /\
     (OidIsValid (child_reltype appinfo) = true ->
      parent_reltype appinfo = child_reltype appinfo ->
        result = Ok (Some (T_Var child_var))) /\
     (OidIsValid (child_reltype appinfo) = false ->
      forall rte,
        root_rtable context !! Z.to_nat (parent_relid appinfo - 1) = Some rte ->
        1 <= parent_relid appinfo ->
        result = Ok (Some (T_RowExpr map (vartype var) COERCE_IMPLICIT_CAST
                                     (eref_colnames rte) (-1))))) /\
  (varattno var < 0 ->
     result = Ok (Some (T_Var child_var)) /\
     varno child_var = child_relid appinfo /\
     varnoold child_var = child_relid appinfo /\
     varattno child_var = varattno var /\
     vartype child_var = vartype var /\
     vartypmod child_var = vartypmod var /\
     varcollid child_var = varcollid var /\
     varlevelsup child_var = varlevelsup var /\
     varoattno child_var = varoattno var /\
     location child_var = location var).
Proof.
  intros Hlvl Hfind result child_var map.
  assert (Hres : result = adjust_var context var) by reflexivity.
  unfold adjust_var in Hres. rewrite Hfind, Hlvl in Hres.
  cbn [Z.eqb retarget varattno vartype] in Hres.
  fold child_var in Hres. fold map in Hres.
  repeat split.
  - intros Hlong. rewrite Hres.
    destruct (Z.gtb_spec (varattno var) 0); [|lia].
    destruct (Z.gtb_spec (varattno var) (Z.of_nat (length map))); [|lia].
    reflexivity.
  - intros Hslot. rewrite Hres.
    destruct (Z.gtb_spec (varattno var) 0); [|lia].
    destruct (Z.gtb_spec (varattno var) (Z.of_nat (length map))); [reflexivity|].
    rewrite (list_nth_lookup map (varattno var - 1) None) by (lia || exact Hslot).
    reflexivity.
  - intros e Hslot. rewrite Hres.
    destruct (Z.gtb_spec (varattno var) 0); [|lia].
    destruct (Z.gtb_spec (varattno var) (Z.of_nat (length map))) as [Hgt|Hle].
    + apply lookup_lt_Some in Hslot. lia.
    + rewrite (list_nth_lookup map (varattno var - 1) (Some e))
        by (lia || exact Hslot).
      reflexivity.
  - intros Hvalid Hne. rewrite Hres, H, Hvalid. cbn [Z.gtb Z.compare Z.eqb].
    destruct (Z.eqb_spec (parent_reltype appinfo) (child_reltype appinfo));
      [contradiction|reflexivity].
  - intros Hvalid Heq. rewrite Hres, H, Hvalid. cbn [Z.gtb Z.compare Z.eqb].
    destruct (Z.eqb_spec (parent_reltype appinfo) (child_reltype appinfo));
      [reflexivity|contradiction].
  - intros Hinvalid rte Hrte Hpos. rewrite Hres, H, Hinvalid.
    cbn [Z.gtb Z.compare Z.eqb]. unfold rt_fetch.
    rewrite (list_nth_lookup (root_rtable context) (parent_relid appinfo - 1) rte)
      by (lia || exact Hrte).
    reflexivity.
  - rewrite Hres.
    destruct (Z.gtb_spec (varattno var) 0); [lia|].
    destruct (Z.eqb_spec (varattno var) 0); [lia|]. reflexivity.
Qed.

(** C9. Outer-query references are never translated: a Var whose varlevelsup
    is not zero comes back equal to the input, also when its varno is a
    mapped parent relation; a Var that comes back changed has varlevelsup
    zero. *)
Theorem adjust_var_outer_reference_kept (rtable : list RangeTblEntry)
    (appinfos : list AppendRelInfo) (var : Var) :
  (varlevelsup var <> 0 ->
     adjust_appendrel_attrs rtable (Some (T_Var var)) appinfos
       = Ok (Some (T_Var var)) /\
     adjust_appendrel_attrs_mutator (Some (T_Var var)) (mkContext rtable appinfos)
       = Ok (Some (T_Var var))) /\
  (adjust_appendrel_attrs rtable (Some (T_Var var)) appinfos
     <> Ok (Some (T_Var var)) ->
   varlevelsup var = 0).
Proof.
  assert (Hkeep : varlevelsup var <> 0 ->
            adjust_var (mkContext rtable appinfos) var = Ok (Some (T_Var var))).
  { intros Hlvl. unfold adjust_var. cbn [Adjust.appinfos].
    destruct (find_parent (varno var) appinfos); [|reflexivity].
    destruct (Z.eqb_spec (varlevelsup var) 0); [contradiction|reflexivity]. }
  split.
  - intros Hlvl. split; exact (Hkeep Hlvl).
  - intros Hchanged. destruct (Z.eq_dec (varlevelsup var) 0) as [|Hne]; [done|].
    exfalso. apply Hchanged. exact (Hkeep Hne).
Qed.

(** Parent relation 1 with a dropped second column, child relation 4. *)
Definition sample_appinfo : AppendRelInfo :=
  mkAppendRelInfo 1 4 700 704
    [Some (T_Var (makeVar 4 2 23 (-1) 0 0)); None;
     Some (T_Var (makeVar 4 1 25 (-1) 100 0))]
    16384.

Definition sample_context : adjust_appendrel_attrs_context :=
  mkContext [mkRTE RTE_RELATION 16384 RELKIND_RELATION true 2 ∅ ∅ ∅ []
                   ["a"; "dropped"; "b"]%string None]
            [sample_appinfo].

Example adjust_var_sample_column :
  adjust_appendrel_attrs_mutator (Some (T_Var (makeVar 1 3 25 (-1) 100 0)))
                                 sample_context
  = Ok (Some (T_Var (makeVar 4 1 25 (-1) 100 0))).
Proof. reflexivity. Qed.

Example adjust_var_sample_dropped :
  adjust_appendrel_attrs_mutator (Some (T_Var (makeVar 1 2 25 (-1) 100 0)))
                                 sample_context
  = no_such_attribute 2 sample_appinfo.
Proof. reflexivity. Qed.

Example adjust_var_sample_outer :
  adjust_appendrel_attrs_mutator (Some (T_Var (makeVar 1 3 25 (-1) 100 1)))
                                 sample_context
  = Ok (Some (T_Var (makeVar 1 3 25 (-1) 100 1))).
Proof. reflexivity. Qed.

Lemma adjust_var_level_zero_witness :
  adjust_appendrel_attrs_mutator (Some (T_Var (makeVar 1 0 700 (-1) 0 0)))
                                 sample_context
  = Ok (Some (T_ConvertRowtypeExpr
                (Some (T_Var (mkVar 4 0 704 (-1) 0 0 4 0 (-1))))
                700 COERCE_IMPLICIT_CAST (-1))).
Proof.
  pose proof (adjust_var_level_zero sample_context
                (makeVar 1 0 700 (-1) 0 0) sample_appinfo
                eq_refl eq_refl) as H.
  cbv zeta in H. destruct H as (_ & Hzero & _).
  destruct (Hzero eq_refl) as (Hconv & _).
  apply Hconv; [reflexivity | discriminate].
Defined.

Lemma adjust_var_outer_reference_kept_witness :
  adjust_appendrel_attrs (root_rtable sample_context)
    (Some (T_Var (makeVar 1 3 25 (-1) 100 2))) (appinfos sample_context)
  = Ok (Some (T_Var (makeVar 1 3 25 (-1) 100 2))).
Proof.
  destruct (adjust_var_outer_reference_kept (root_rtable sample_context)
              (appinfos sample_context) (makeVar 1 3 25 (-1) 100 2))
    as (Hkeep & _).
  apply Hkeep. discriminate.
Defined.

End Adjust.

(** ** Target lists of set-operation nodes *)

Module SetopTlist.

(** [(Index) n]: Index is unsigned int. *)
Definition Index_of_AttrNumber (n : Z) : Z := n mod 4294967296.

Definition nonjunk (tlist : list TargetEntry) : list TargetEntry :=
  filter (fun tle => resjunk tle = false) tlist.

Section SetopTlist.

(** nodes/nodeFuncs.c and parser/parse_coerce.c are collaborators. *)
Variable exprType : option Node -> Z.
Variable exprTypmod : option Node -> Z.
Variable exprCollation : option Node -> Z.
Variable coerce_to_common_type : Node -> Z -> string -> Res Node.

(** What a freshly palloc'ed int32 array holds at each index. *)
Variable palloc_garbage : nat -> Z.

(** One iteration of the forthree loop of generate_setop_tlist. *)
Definition setop_tlist_entry (varno : Z) (hack_constants : bool)
    (colType colColl : Z) (inputtle reftle : TargetEntry) (resno : Z)
    : Res TargetEntry :=
  let var :=
    T_Var (makeVar varno (Nodes.resno inputtle)
                   (exprType (Nodes.expr inputtle))
                   (exprTypmod (Nodes.expr inputtle))
                   (exprCollation (Nodes.expr inputtle)) 0) in
  (* if (hack_constants && inputtle->expr && IsA(inputtle->expr, Const)) *)
  let expr :=
    match Nodes.expr inputtle with
    | Some (T_Const c) => if hack_constants then T_Const c else var
    | _ => var
    end in
  let? expr :=
    (if negb (exprType (Some expr) =? colType)
     then coerce_to_common_type expr colType "UNION/INTERSECT/EXCEPT"
     else Ok expr) in
  let expr :=
    if negb (exprCollation (Some expr) =? colColl)
    then makeRelabelType (Some expr) (exprType (Some expr))
                         (exprTypmod (Some expr)) colColl COERCE_IMPLICIT_CAST
    else expr in
  let tle := makeTargetEntry (Some expr) (AttrNumber_of_int resno)
                             (resname reftle) false in
  Ok (set_ressortgroupref tle (Index_of_AttrNumber (Nodes.resno tle))).

(** The loop; [rtlc] is chased by hand and [resno] counts from 1.  Returns the
    list built so far and the next resno. *)
Fixpoint setop_tlist_loop (varno : Z) (hack_constants : bool)
    (colTypes colCollations : list Z) (input_tlist rtlc : list TargetEntry)
    (resno : Z) (tlist : list TargetEntry) : Res (list TargetEntry * Z) :=
  match colTypes, colCollations, input_tlist with
  | colType :: colTypes, colColl :: colCollations, inputtle :: input_tlist =>
      match rtlc with
      | [] => Trap                               (* lfirst(rtlc) on NULL *)
      | reftle :: rtlc =>
          let? tle := setop_tlist_entry varno hack_constants colType colColl
                                        inputtle reftle resno in
          setop_tlist_loop varno hack_constants colTypes colCollations
                           input_tlist rtlc (resno + 1) (tlist ++ [tle])
      end
  | _, _, _ => Ok (tlist, resno)
  end.

Definition generate_setop_tlist (colTypes colCollations : list Z) (flag : Z)
    (varno : Z) (hack_constants : bool)
    (input_tlist refnames_tlist : list TargetEntry) : Res (list TargetEntry) :=
  let? (tlist, resno) :=
    setop_tlist_loop varno hack_constants colTypes colCollations
                     input_tlist refnames_tlist 1 [] in
  if 0 <=? flag then
    (* Add a resjunk flag column; flag value is the given constant *)
    let expr := T_Const (makeConst INT4OID (-1) InvalidOid 4 flag false true) in
    let tle := makeTargetEntry (Some expr) (AttrNumber_of_int resno) "flag" true in
    Ok (tlist ++ [tle])
  else Ok tlist.

(** The typmod a column keeps after one more input entry was seen. *)
Definition typmod_step (first : bool) (colType : Z) (subtle : TargetEntry)
    (old : Z) : Z :=
  if exprType (Nodes.expr subtle) =? colType then
    let subtypmod := exprTypmod (Nodes.expr subtle) in
    if first then subtypmod
    else if negb (subtypmod =? old) then -1
    else old
  else -1.

(** The inner foreach of generate_append_tlist over one input tlist. *)
Fixpoint subtlist_typmods (first : bool) (subtlist : list TargetEntry)
    (curColType : list Z) (colindex : nat) (colTypmods : list Z)
    : Res (list Z) :=
  match subtlist with
  | [] => Ok colTypmods
  | subtle :: subtlist =>
      if resjunk subtle then
        subtlist_typmods first subtlist curColType colindex colTypmods
      else
        match curColType with
        | [] => Trap                             (* lfirst_oid(curColType) on NULL *)
        | colType :: curColType =>
            let colTypmods :=
              <[colindex := typmod_step first colType subtle
                                        (colTypmods !!! colindex)]> colTypmods in
            subtlist_typmods first subtlist curColType (S colindex) colTypmods
        end
  end.

(** The outer foreach; [first] tells tlistl == list_head(input_tlists). *)
Fixpoint input_typmods (first : bool) (input_tlists : list (list TargetEntry))
    (colTypes : list Z) (colTypmods : list Z) : Res (list Z) :=
  match input_tlists with
  | [] => Ok colTypmods
  | subtlist :: input_tlists =>
      let? colTypmods := subtlist_typmods first subtlist colTypes 0 colTypmods in
      input_typmods false input_tlists colTypes colTypmods
  end.

(** The forthree loop that builds the Append's tlist. *)
Fixpoint append_tlist_loop (colTypes colCollations : list Z)
    (refnames_tlist : list TargetEntry) (colTypmods : list Z) (colindex : nat)
    (resno : Z) (tlist : list TargetEntry) : list TargetEntry * Z :=
  match colTypes, colCollations, refnames_tlist with
  | colType :: colTypes, colColl :: colCollations, reftle :: refnames_tlist =>
      let colTypmod := colTypmods !!! colindex in
      let expr := T_Var (makeVar 0 (AttrNumber_of_int resno) colType colTypmod
                                 colColl 0) in
      let tle := makeTargetEntry (Some expr) (AttrNumber_of_int resno)
                                 (resname reftle) false in
      let tle := set_ressortgroupref tle (Index_of_AttrNumber (Nodes.resno tle)) in
      append_tlist_loop colTypes colCollations refnames_tlist colTypmods
                        (S colindex) (resno + 1) (tlist ++ [tle])
  | _, _, _ => (tlist, resno)
  end.

Definition generate_append_tlist (colTypes colCollations : list Z) (flag : bool)
    (input_tlists : list (list TargetEntry)) (refnames_tlist : list TargetEntry)
    : Res (list TargetEntry) :=
  let colTypmods := map palloc_garbage (seq 0 (length colTypes)) in
  let? colTypmods := input_typmods true input_tlists colTypes colTypmods in
  let '(tlist, resno) :=
    append_tlist_loop colTypes colCollations refnames_tlist colTypmods 0 1 [] in
  if flag then
    (* Add a resjunk flag column; shown as copied up from subplan *)
    let expr := T_Var (makeVar 0 (AttrNumber_of_int resno) INT4OID (-1)
                               InvalidOid 0) in
    let tle := makeTargetEntry (Some expr) (AttrNumber_of_int resno) "flag" true in
    Ok (tlist ++ [tle])
  else Ok tlist.

End SetopTlist.

(** generate_setop_grouplist: install the sort/group references of the
    non-junk columns into a copy of the parser's group clauses. *)
Fixpoint setop_grouplist_loop (lg : list SortGroupClause)
    (targetlist : list TargetEntry) (visited : list SortGroupClause)
    : Res (list SortGroupClause) :=
  match targetlist with
  | [] => Ok (visited ++ lg)
  | tle :: targetlist =>
      if resjunk tle then setop_grouplist_loop lg targetlist visited
      else
        match lg with
        | [] => Trap                             (* lfirst(lg) on NULL *)
        | sgc :: lg =>
            setop_grouplist_loop lg targetlist
              (visited ++ [set_tleSortGroupRef sgc (ressortgroupref tle)])
        end
  end.

Definition generate_setop_grouplist (groupClauses : list SortGroupClause)
    (targetlist : list TargetEntry) : Res (list SortGroupClause) :=
  setop_grouplist_loop groupClauses targetlist [].

(** The convention of a set-operation tlist: resnos count from 1, a non-junk
    column's sort/group reference is its resno, and the only junk column is
    the flag column, last and without a reference, present when asked for. *)
Definition setop_tlist_convention (with_flag : bool) (tlist : list TargetEntry)
    : Prop :=
  (forall (i : nat) tle, tlist !! i = Some tle ->
     resno tle = Z.of_nat i + 1 /\
     (resjunk tle = false -> ressortgroupref tle = resno tle) /\
     (resjunk tle = true ->
        ressortgroupref tle = 0 /\ S i = length tlist /\ with_flag = true)) /\
  (with_flag = true ->
     exists tle, last tlist = Some tle /\ resjunk tle = true).


(** *** The tlist convention (C6) *)

Definition plain_columns (tlist : list TargetEntry) : Prop :=
  forall (i : nat) tle, tlist !! i = Some tle ->
    resno tle = Z.of_nat i + 1 /\ resjunk tle = false /\
    ressortgroupref tle = resno tle.

Lemma plain_columns_nil : plain_columns [].
Proof. intros i tle Hl. by rewrite lookup_nil in Hl. Qed.

Lemma plain_columns_snoc (tlist : list TargetEntry) (tle : TargetEntry) :
  plain_columns tlist ->
  resno tle = Z.of_nat (length tlist) + 1 ->
  resjunk tle = false ->
  ressortgroupref tle = resno tle ->
  plain_columns (tlist ++ [tle]).
Proof.
  intros Hplain Hno Hjunk Href i e Hl.
  apply lookup_app_Some in Hl as [Hl|[Hge Hl]].
  - by apply Hplain.
  - apply list_lookup_singleton_Some in Hl as [Hi <-].
    replace i with (length tlist) by lia. done.
Qed.

Lemma convention_of_plain (tlist : list TargetEntry) :
  plain_columns tlist -> setop_tlist_convention false tlist.
Proof.
  intros Hplain. split; [|discriminate].
  intros i tle Hl. destruct (Hplain i tle Hl) as (Hno & Hjunk & Href).
  split; [done|]. split; [done|]. intros Hj. congruence.
Qed.

Lemma convention_with_flag (tlist : list TargetEntry) (flagtle : TargetEntry) :
  plain_columns tlist ->
  resno flagtle = Z.of_nat (length tlist) + 1 ->
  resjunk flagtle = true ->
  ressortgroupref flagtle = 0 ->
  setop_tlist_convention true (tlist ++ [flagtle]).
Proof.
  intros Hplain Hno Hjunk Href. split.
  - intros i tle Hl.
    apply lookup_app_Some in Hl as [Hl|[Hge Hl]].
    + destruct (Hplain i tle Hl) as (Hn & Hj & Hr).
      split; [done|]. split; [done|]. intros Hj'. congruence.
    + apply list_lookup_singleton_Some in Hl as [Hi <-].
      assert (i = length tlist) as -> by lia.
      split; [done|]. split; [congruence|]. intros _.
      split; [done|]. split; [|done]. rewrite length_app. cbn. lia.
  - intros _. exists flagtle. split; [apply last_snoc|done].
Qed.

Lemma AttrNumber_of_int_small (n : Z) :
  -32768 <= n <= 32767 -> AttrNumber_of_int n = n.
Proof.
  intros Hn. unfold AttrNumber_of_int.
  rewrite Z.mod_small by lia. lia.
Qed.

Lemma Index_of_AttrNumber_small (n : Z) :
  0 <= n <= 32767 -> Index_of_AttrNumber n = n.
Proof. intros Hn. unfold Index_of_AttrNumber. apply Z.mod_small. lia. Qed.

Section Convention.

Variable exprType : option Node -> Z.
Variable exprTypmod : option Node -> Z.
Variable exprCollation : option Node -> Z.
Variable coerce_to_common_type : Node -> Z -> string -> Res Node.
Variable palloc_garbage : nat -> Z.

Lemma setop_tlist_entry_fields (varno : Z) (hack : bool) (colType colColl : Z)
    (inputtle reftle tle : TargetEntry) (resno : Z) :
  0 <= resno <= 32767 ->
  setop_tlist_entry exprType exprTypmod exprCollation coerce_to_common_type
                    varno hack colType colColl inputtle reftle resno = Ok tle ->
  Nodes.resno tle = resno /\ resjunk tle = false /\ ressortgroupref tle = resno.
Proof.
  intros Hr Hrun. unfold setop_tlist_entry in Hrun.
  match type of Hrun with
  | rbind ?c _ = _ => destruct c as [e| |]; cbn [rbind] in Hrun; try discriminate
  end.
  injection Hrun as <-. cbn.
  rewrite AttrNumber_of_int_small by lia.
  rewrite Index_of_AttrNumber_small by lia. done.
Qed.

Lemma setop_tlist_loop_plain (varno : Z) (hack : bool) (colTypes : list Z) :
  forall (colCollations : list Z) (input_tlist rtlc : list TargetEntry)
         (resno : Z) (tlist tlist' : list TargetEntry) (resno' : Z),
  resno = Z.of_nat (length tlist) + 1 ->
  Z.of_nat (length tlist) + Z.of_nat (length colTypes) <= 32767 ->
  plain_columns tlist ->
  setop_tlist_loop exprType exprTypmod exprCollation coerce_to_common_type
                   varno hack colTypes colCollations input_tlist rtlc
                   resno tlist = Ok (tlist', resno') ->
  plain_columns tlist' /\ resno' = Z.of_nat (length tlist') + 1 /\
  Z.of_nat (length tlist') <= Z.of_nat (length tlist) + Z.of_nat (length colTypes).
Proof.
  induction colTypes as [|colType colTypes IH];
    intros colCollations input_tlist rtlc resno tlist tlist' resno'
           Hno Hbound Hplain Hrun.
  - cbn in Hrun. injection Hrun as <- <-. cbn. split; [done|]. lia.
  - cbn [setop_tlist_loop] in Hrun.
    destruct colCollations as [|colColl colCollations];
      [injection Hrun as <- <-; split; [done|lia]|].
    destruct input_tlist as [|inputtle input_tlist];
      [injection Hrun as <- <-; split; [done|lia]|].
    destruct rtlc as [|reftle rtlc]; [discriminate|].
    destruct (setop_tlist_entry _ _ _ _ varno hack colType colColl inputtle
                                reftle resno) as [tle| |] eqn:Hentry;
      cbn [rbind] in Hrun; try discriminate.
    cbn [length] in Hbound.
    apply setop_tlist_entry_fields in Hentry as (Hn & Hj & Hr); [|lia].
    apply IH in Hrun as (Hplain' & Hno' & Hlen').
    + split; [done|]. split; [done|].
      rewrite length_app in Hlen'. cbn [length] in *. lia.
    + rewrite length_app. cbn. lia.
    + rewrite length_app. cbn. lia.
    + apply plain_columns_snoc; [done| | done |]; congruence.
Qed.

Lemma append_tlist_loop_plain (colTypes : list Z) :
  forall (colCollations : list Z) (refnames : list TargetEntry)
         (colTypmods : list Z) (colindex : nat) (resno : Z)
         (tlist tlist' : list TargetEntry) (resno' : Z),
  resno = Z.of_nat (length tlist) + 1 ->
  Z.of_nat (length tlist) + Z.of_nat (length colTypes) <= 32767 ->
  plain_columns tlist ->
  append_tlist_loop colTypes colCollations refnames colTypmods colindex
                    resno tlist = (tlist', resno') ->
  plain_columns tlist' /\ resno' = Z.of_nat (length tlist') + 1 /\
  Z.of_nat (length tlist') <= Z.of_nat (length tlist) + Z.of_nat (length colTypes).
Proof.
  induction colTypes as [|colType colTypes IH];
    intros colCollations refnames colTypmods colindex resno tlist tlist' resno'
           Hno Hbound Hplain Hrun.
  - cbn in Hrun. injection Hrun as <- <-. split; [done|]. cbn. lia.
  - cbn [append_tlist_loop] in Hrun.
    destruct colCollations as [|colColl colCollations];
      [injection Hrun as <- <-; split; [done|lia]|].
    destruct refnames as [|reftle refnames];
      [injection Hrun as <- <-; split; [done|lia]|].
    cbn [length] in Hbound.
    apply IH in Hrun as (Hplain' & Hno' & Hlen').
    + split; [done|]. split; [done|].
      rewrite length_app in Hlen'. cbn [length] in *. lia.
    + rewrite length_app. cbn. lia.
    + rewrite length_app. cbn. lia.
    + apply plain_columns_snoc; [done|..]; cbn;
        rewrite ?AttrNumber_of_int_small by lia;
        rewrite ?Index_of_AttrNumber_small by lia; done.
Qed.

(** C6. Whenever generate_setop_tlist or generate_append_tlist succeeds, the
    tlist it returns numbers its entries 1, 2, ... in order, every non-junk
    entry has ressortgroupref equal to its resno, and the junk flag entry,
    when one was asked for, is the last entry and has ressortgroupref 0.
    (AttrNumber is int16, so the column count stays below 32767.) *)
Theorem setop_tlists_keep_convention :
  (forall (colTypes colCollations : list Z) (flag varno : Z) (hack : bool)
          (input_tlist refnames tlist : list TargetEntry),
     Z.of_nat (length colTypes) < 32767 ->
     generate_setop_tlist exprType exprTypmod exprCollation
        coerce_to_common_type colTypes colCollations flag varno hack
        input_tlist refnames = Ok tlist ->
     setop_tlist_convention (0 <=? flag) tlist) /\
  (forall (colTypes colCollations : list Z) (flag : bool)
          (input_tlists : list (list TargetEntry))
          (refnames tlist : list TargetEntry),
     Z.of_nat (length colTypes) < 32767 ->
     generate_append_tlist exprType exprTypmod palloc_garbage
        colTypes colCollations flag input_tlists refnames = Ok tlist ->
     setop_tlist_convention flag tlist).
Proof.
  split.
  - intros colTypes colCollations flag varno hack input_tlist refnames tlist
           Hlen Hrun.
    unfold generate_setop_tlist in Hrun.
    destruct (setop_tlist_loop _ _ _ _ varno hack colTypes colCollations
                               input_tlist refnames 1 [])
      as [[tl resno]| |] eqn:Hloop; cbn [rbind] in Hrun; try discriminate.
    apply setop_tlist_loop_plain in Hloop as (Hplain & Hno & Hn);
      [|done|cbn; lia|apply plain_columns_nil].
    cbn [length] in Hn.
    destruct (0 <=? flag).
    + injection Hrun as <-.
      apply convention_with_flag; [done| |done|done].
      cbn. rewrite AttrNumber_of_int_small by lia. done.
    + injection Hrun as <-. by apply convention_of_plain.
  - intros colTypes colCollations flag input_tlists refnames tlist Hlen Hrun.
    unfold generate_append_tlist in Hrun.
    destruct (input_typmods _ _ true input_tlists colTypes _)
      as [typmods| |]; cbn [rbind] in Hrun; try discriminate.
    destruct (append_tlist_loop colTypes colCollations refnames typmods 0 1 [])
      as [tl resno] eqn:Hloop.
    apply append_tlist_loop_plain in Hloop as (Hplain & Hno & Hn);
      [|done|cbn; lia|apply plain_columns_nil].
    cbn [length] in Hn.
    destruct flag.
    + injection Hrun as <-.
      apply convention_with_flag; [done| |done|done].
      cbn. rewrite AttrNumber_of_int_small by lia. done.
    + injection Hrun as <-. by apply convention_of_plain.
Qed.

End Convention.


(** *** Typmods of an Append's tlist (C5) *)

Section Typmods.

Variable exprType : option Node -> Z.
Variable exprTypmod : option Node -> Z.
Variable palloc_garbage : nat -> Z.

Local Abbreviation step := (typmod_step exprType exprTypmod).

(** What the passes over the input tlists leave in one slot of colTypmods. *)
Fixpoint column_typmod (first : bool) (colType : Z) (entries : list TargetEntry)
    (old : Z) : Z :=
  match entries with
  | [] => old
  | e :: entries => column_typmod false colType entries (step first colType e old)
  end.

Definition agrees (colType t : Z) (e : TargetEntry) : Prop :=
  exprType (expr e) = colType /\ exprTypmod (expr e) = t.

Lemma step_later_cases (colType t : Z) (e : TargetEntry) :
  (agrees colType t e /\ step false colType e t = t) \/
  (~ agrees colType t e /\ step false colType e t = -1).
Proof.
  unfold agrees, typmod_step.
  destruct (Z.eqb_spec (exprType (expr e)) colType) as [Ht|Ht].
  - destruct (Z.eqb_spec (exprTypmod (expr e)) t) as [Hm|Hm]; cbn [negb].
    + left. done.
    + right. split; [tauto|done].
  - right. split; [tauto|done].
Qed.

Lemma column_typmod_sticky (colType : Z) (entries : list TargetEntry) :
  column_typmod false colType entries (-1) = -1.
Proof.
  induction entries as [|e entries IH]; [done|].
  cbn [column_typmod].
  destruct (step_later_cases colType (-1) e) as [[_ ->]|[_ ->]]; exact IH.
Qed.

Lemma column_typmod_agree (colType t : Z) (entries : list TargetEntry) :
  Forall (agrees colType t) entries ->
  column_typmod false colType entries t = t.
Proof.
  induction 1 as [|e entries He _ IH]; [done|].
  cbn [column_typmod].
  destruct (step_later_cases colType t e) as [[_ ->]|[Hn _]]; [exact IH|done].
Qed.

Lemma column_typmod_disagree (colType t : Z) (entries : list TargetEntry) :
  Exists (fun e => ~ agrees colType t e) entries ->
  column_typmod false colType entries t = -1.
Proof.
  induction 1 as [e entries He|e entries _ IH]; cbn [column_typmod].
  - destruct (step_later_cases colType t e) as [[Ha _]|[_ ->]]; [done|].
    apply column_typmod_sticky.
  - destruct (step_later_cases colType t e) as [[_ ->]|[_ ->]]; [exact IH|].
    apply column_typmod_sticky.
Qed.

Lemma subtlist_typmods_nonjunk (first : bool) (subtlist : list TargetEntry) :
  forall (cur : list Z) (idx : nat) (arr : list Z),
  subtlist_typmods exprType exprTypmod first subtlist cur idx arr
  = subtlist_typmods exprType exprTypmod first (nonjunk subtlist) cur idx arr.
Proof.
  induction subtlist as [|e l IH]; intros cur idx arr; [done|].
  unfold nonjunk. rewrite filter_cons. fold (nonjunk l).
  cbn [subtlist_typmods].
  destruct (resjunk e) eqn:Hj.
  - rewrite decide_False by congruence. apply IH.
  - rewrite decide_True by done. cbn [subtlist_typmods]. rewrite Hj.
    destruct cur as [|c cur]; [done|]. apply IH.
Qed.

Lemma nonjunk_Forall (tlist : list TargetEntry) :
  Forall (fun e => resjunk e = false) (nonjunk tlist).
Proof.
  apply Forall_forall. intros e He.
  unfold nonjunk in He. by apply list_elem_of_filter in He as [He _].
Qed.

Lemma subtlist_typmods_spec (first : bool) (nj : list TargetEntry) :
  Forall (fun e => resjunk e = false) nj ->
  forall (cur : list Z) (idx : nat) (arr : list Z),
  (length nj <= length cur)%nat ->
  (idx + length nj <= length arr)%nat ->
  exists arr',
    subtlist_typmods exprType exprTypmod first nj cur idx arr = Ok arr' /\
    length arr' = length arr /\
    (forall j, (j < idx \/ idx + length nj <= j)%nat -> arr' !! j = arr !! j) /\
    (forall (k : nat) colType e old,
       cur !! k = Some colType -> nj !! k = Some e ->
       arr !! (idx + k)%nat = Some old ->
       arr' !! (idx + k)%nat = Some (step first colType e old)).
Proof.
  induction 1 as [|e nj Hj _ IH]; intros cur idx arr Hcur Harr.
  - exists arr. split; [done|]. split; [done|]. split; [done|].
    intros k c e old _ He. by rewrite lookup_nil in He.
  - cbn [length] in Hcur, Harr.
    destruct cur as [|c cur]; [cbn in Hcur; lia|]. cbn [length] in Hcur.
    cbn [subtlist_typmods]. rewrite Hj.
    set (arr1 := <[idx := step first c e (arr !!! idx)]> arr).
    destruct (IH cur (S idx) arr1) as (arr' & Hrun & Hlen & Hsame & Hnew);
      [lia|unfold arr1; rewrite length_insert; lia|].
    exists arr'. split; [exact Hrun|].
    split; [rewrite Hlen; unfold arr1; apply length_insert|].
    split.
    + intros j Hjr. cbn [length] in Hjr. rewrite Hsame by lia.
      unfold arr1. apply list_lookup_insert_ne. lia.
    + intros k colType e' old Hc He Hold.
      destruct k as [|k].
      * cbn in Hc, He. injection Hc as <-. injection He as <-.
        replace (idx + 0)%nat with idx in * by lia.
        rewrite Hsame by lia. unfold arr1.
        rewrite list_lookup_insert_eq by lia.
        by rewrite (list_lookup_total_correct _ _ _ Hold).
      * cbn in Hc, He.
        replace (idx + S k)%nat with (S idx + k)%nat in * by lia.
        apply (Hnew k colType e' old Hc He).
        unfold arr1. rewrite list_lookup_insert_ne by lia. exact Hold.
Qed.

Lemma input_typmods_spec (colTypes : list Z)
    (input_tlists : list (list TargetEntry)) :
  forall (first : bool) (arr : list Z),
  (forall tl, tl ∈ input_tlists -> length (nonjunk tl) = length colTypes) ->
  length arr = length colTypes ->
  exists arr',
    input_typmods exprType exprTypmod first input_tlists colTypes arr = Ok arr' /\
    length arr' = length colTypes /\
    forall (i : nat) colType old entries,
      colTypes !! i = Some colType -> arr !! i = Some old ->
      Forall2 (fun tl e => nonjunk tl !! i = Some e) input_tlists entries ->
      arr' !! i = Some (column_typmod first colType entries old).
Proof.
  induction input_tlists as [|tl tls IH]; intros first arr Hall Hlen.
  - exists arr. split; [done|]. split; [done|].
    intros i c old entries _ Hold HF. inversion HF; subst. exact Hold.
  - cbn [input_typmods]. rewrite subtlist_typmods_nonjunk.
    assert (Htl : length (nonjunk tl) = length colTypes)
      by (apply Hall; left).
    destruct (subtlist_typmods_spec first (nonjunk tl) (nonjunk_Forall tl)
                colTypes 0%nat arr) as (arr1 & Hrun & Hlen1 & _ & Hnew);
      [lia|cbn; lia|].
    rewrite Hrun. cbn [rbind].
    destruct (IH false arr1) as (arr' & Hrun' & Hlen' & Hspec);
      [intros t Ht; apply Hall; by right|lia|].
    exists arr'. split; [exact Hrun'|]. split; [exact Hlen'|].
    intros i c old entries Hc Hold HF.
    inversion HF as [|tl0 e tls0 es He HF']; subst.
    cbn [column_typmod]. apply (Hspec i c _ es Hc); [|exact HF'].
    exact (Hnew i c e old Hc He Hold).
Qed.

Lemma column_entries_exist (i : nat) (input_tlists : list (list TargetEntry)) :
  (forall tl, tl ∈ input_tlists -> (i < length (nonjunk tl))%nat) ->
  exists entries,
    Forall2 (fun tl e => nonjunk tl !! i = Some e) input_tlists entries.
Proof.
  induction input_tlists as [|tl tls IH]; intros Hall.
  - exists []. constructor.
  - destruct (lookup_lt_is_Some_2 (nonjunk tl) i) as [e He];
      [apply Hall; left|].
    destruct IH as [es Hes]; [intros t Ht; apply Hall; by right|].
    exists (e :: es). by constructor.
Qed.

Lemma append_tlist_loop_extends (colTypes : list Z) :
  forall (colCollations : list Z) (refnames : list TargetEntry)
         (typmods : list Z) (colindex : nat) (resno : Z)
         (tlist : list TargetEntry),
  exists ext,
    (append_tlist_loop colTypes colCollations refnames typmods colindex
                       resno tlist).1 = tlist ++ ext.
Proof.
  induction colTypes as [|c colTypes IH];
    intros colCollations refnames typmods colindex resno tlist.
  - exists []. cbn. by rewrite app_nil_r.
  - cbn [append_tlist_loop].
    destruct colCollations as [|cc colCollations];
      [exists []; cbn; by rewrite app_nil_r|].
    destruct refnames as [|r refnames];
      [exists []; cbn; by rewrite app_nil_r|].
    match goal with
    | |- context [append_tlist_loop _ _ _ _ ?ci ?rn (tlist ++ [?tle])] =>
        destruct (IH colCollations refnames typmods ci rn (tlist ++ [tle]))
          as [ext Hext]; exists (tle :: ext); rewrite Hext
    end.
    by rewrite <- app_assoc.
Qed.

Lemma append_tlist_loop_lookup (colTypes : list Z) :
  forall (colCollations : list Z) (refnames : list TargetEntry)
         (typmods : list Z) (colindex : nat) (resno : Z)
         (tlist : list TargetEntry) (k : nat) (colType : Z),
  colTypes !! k = Some colType ->
  (k < length colCollations)%nat -> (k < length refnames)%nat ->
  exists tle var,
    (append_tlist_loop colTypes colCollations refnames typmods colindex
                       resno tlist).1 !! (length tlist + k)%nat = Some tle /\
    expr tle = Some (T_Var var) /\
    vartype var = colType /\
    vartypmod var = typmods !!! (colindex + k)%nat.
Proof.
  induction colTypes as [|c colTypes IH];
    intros colCollations refnames typmods colindex resno tlist k colType
           Hc Hcc Hr.
  - by rewrite lookup_nil in Hc.
  - cbn [append_tlist_loop].
    destruct colCollations as [|cc colCollations]; [cbn in Hcc; lia|].
    destruct refnames as [|r refnames]; [cbn in Hr; lia|].
    cbn [length] in Hcc, Hr.
    destruct k as [|k].
    + cbn in Hc. injection Hc as ->.
      match goal with
      | |- context [append_tlist_loop _ _ _ _ ?ci ?rn (tlist ++ [?tle])] =>
          destruct (append_tlist_loop_extends colTypes colCollations refnames
                      typmods ci rn (tlist ++ [tle])) as [ext Hext];
          rewrite Hext; exists tle
      end.
      eexists. split.
      * rewrite <- app_assoc. rewrite lookup_app_r by lia.
        replace (length tlist + 0 - length tlist)%nat with 0%nat by lia.
        reflexivity.
      * cbn. replace (colindex + 0)%nat with colindex by lia. done.
    + cbn in Hc.
      match goal with
      | |- context [append_tlist_loop _ _ _ _ ?ci ?rn (tlist ++ [?tle])] =>
          destruct (IH colCollations refnames typmods ci rn (tlist ++ [tle])
                      k colType Hc ltac:(lia) ltac:(lia))
            as (tle' & var & Hl & He & Ht & Hm)
      end.
      exists tle', var. rewrite length_app in Hl. cbn [length] in Hl.
      replace (length tlist + S k)%nat with (length tlist + 1 + k)%nat by lia.
      split; [exact Hl|]. split; [exact He|]. split; [exact Ht|].
      rewrite Hm. f_equal. lia.
Qed.

(** C5. With at least one input tlist, each input tlist carrying one
    non-junk entry per declared column: the Var generated for a column keeps
    the children's typmod when every input entry of that column has the
    declared type and that same typmod, and carries -1 as soon as one input
    entry of the column differs from the declared type or from the first
    input's typmod. *)
Theorem append_tlist_typmod_agreement (colTypes colCollations : list Z)
    (flag : bool) (first_tlist : list TargetEntry)
    (other_tlists : list (list TargetEntry)) (refnames : list TargetEntry)
    (i : nat) (colType : Z) :
  let input_tlists := first_tlist :: other_tlists in
  (forall tl, tl ∈ input_tlists -> length (nonjunk tl) = length colTypes) ->
  colTypes !! i = Some colType ->
  (i < length colCollations)%nat -> (i < length refnames)%nat ->
  exists tlist tle var,
    generate_append_tlist exprType exprTypmod palloc_garbage colTypes
      colCollations flag input_tlists refnames = Ok tlist /\
    tlist !! i = Some tle /\
    expr tle = Some (T_Var var) /\
    vartype var = colType /\
    (forall t,
       (forall tl, tl ∈ input_tlists ->
          exists e, nonjunk tl !! i = Some e /\
                    exprType (expr e) = colType /\ exprTypmod (expr e) = t) ->
       vartypmod var = t) /\
    ((exists tl e e0,
        tl ∈ input_tlists /\ nonjunk tl !! i = Some e /\
        nonjunk first_tlist !! i = Some e0 /\
        (exprType (expr e) <> colType \/
         exprTypmod (expr e) <> exprTypmod (expr e0))) ->
     vartypmod var = -1).
Proof.
  intros input_tlists Hall Hc Hcc Hr.
  assert (Hi : (i < length colTypes)%nat) by (by apply lookup_lt_Some in Hc).
  set (arr0 := map palloc_garbage (seq 0 (length colTypes))).
  assert (Hlen0 : length arr0 = length colTypes)
    by (unfold arr0; by rewrite length_map, length_seq).
  destruct (input_typmods_spec colTypes input_tlists true arr0 Hall Hlen0)
    as (arr & Hrun & Hlen & Hspec).
  destruct (column_entries_exist i input_tlists) as [entries Hentries].
  { intros tl Htl. rewrite (Hall tl Htl). exact Hi. }
  destruct (lookup_lt_is_Some_2 arr0 i) as [old Hold]; [lia|].
  pose proof (Hspec i colType old entries Hc Hold Hentries) as Hslot.
  destruct (append_tlist_loop_lookup colTypes colCollations refnames arr
              0%nat 1 [] i colType Hc Hcc Hr) as (tle & var & Hl & He & Ht & Hm).
  cbn [length Nat.add] in Hl, Hm.
  rewrite (list_lookup_total_correct _ _ _ Hslot) in Hm.
  assert (Hout : exists tlist,
             generate_append_tlist exprType exprTypmod palloc_garbage colTypes
               colCollations flag input_tlists refnames = Ok tlist /\
             tlist !! i = Some tle).
  { unfold generate_append_tlist. fold arr0. rewrite Hrun. cbn [rbind].
    destruct (append_tlist_loop colTypes colCollations refnames arr 0 1 [])
      as [tl resno]. cbn [fst] in Hl.
    destruct flag; eexists; (split; [reflexivity|]); [|exact Hl].
    by apply lookup_app_l_Some. }
  destruct Hout as (tlist & Hgen & Hlook).
  exists tlist, tle, var.
  split; [exact Hgen|]. split; [exact Hlook|]. split; [exact He|].
  split; [exact Ht|].
  apply Forall2_cons_inv_l in Hentries as (e0 & es & He0 & Hes & ->).
  cbn [column_typmod] in Hm.
  split.
  - intros t Hagree. rewrite Hm.
    destruct (Hagree first_tlist) as (e & Hl0 & Hty & Htm); [left|].
    assert (e = e0) as -> by congruence.
    unfold typmod_step at 1. rewrite Hty, Z.eqb_refl, Htm.
    apply column_typmod_agree.
    apply Forall_forall. intros e He'.
    apply list_elem_of_lookup in He' as [j Hj].
    destruct (Forall2_lookup_r _ _ _ _ _ Hes Hj) as (tl & Htl & Hnj).
    destruct (Hagree tl) as (e' & Hl' & Hty' & Htm').
    { right. by eapply list_elem_of_lookup_2. }
    assert (e' = e) as -> by congruence. done.
  - intros (tl & e & e0' & Htl & Hle & Hl0 & Hdiff).
    assert (e0' = e0) as -> by congruence.
    rewrite Hm. unfold typmod_step at 1.
    destruct (Z.eqb_spec (exprType (expr e0)) colType) as [Hty0|Hty0];
      [|apply column_typmod_sticky].
    apply elem_of_cons in Htl as [->|Htl].
    + assert (e = e0) as -> by congruence. tauto.
    + apply column_typmod_disagree. apply Exists_exists.
      apply list_elem_of_lookup in Htl as [j Hj].
      destruct (Forall2_lookup_l _ _ _ _ _ Hes Hj) as (e' & He' & Hnj).
      assert (e' = e) as -> by congruence.
      exists e. split; [by eapply list_elem_of_lookup_2|].
      unfold agrees. tauto.
Qed.

End Typmods.


(** *** Concrete runs

    exprType, exprTypmod and exprCollation as nodes/nodeFuncs.c computes them
    for Vars, Consts and RelabelTypes; the coercion relabels. *)

Definition sample_exprType (e : option Node) : Z :=
  match e with
  | Some (T_Var v) => vartype v
  | Some (T_Const c) => consttype c
  | Some (T_RelabelType _ t _ _ _) => t
  | _ => InvalidOid
  end.

Definition sample_exprTypmod (e : option Node) : Z :=
  match e with
  | Some (T_Var v) => vartypmod v
  | Some (T_Const c) => consttypmod c
  | Some (T_RelabelType _ _ tm _ _) => tm
  | _ => -1
  end.

Definition sample_exprCollation (e : option Node) : Z :=
  match e with
  | Some (T_Var v) => varcollid v
  | Some (T_Const c) => constcollid c
  | Some (T_RelabelType _ _ _ coll _) => coll
  | _ => InvalidOid
  end.

Definition sample_coerce (e : Node) (t : Z) (context : string) : Res Node :=
  Ok (T_RelabelType (Some e) t (-1) InvalidOid COERCE_IMPLICIT_CAST).

Definition sample_garbage (i : nat) : Z := 12345 + Z.of_nat i.

(** varchar(10) and numeric(8,2) columns: types 1043 and 1700, typmods 14 and
    524294. *)
Definition sample_left : list TargetEntry :=
  [mkTargetEntry (Some (T_Var (makeVar 1 1 1043 14 100 0))) 1 "name" 1 false;
   mkTargetEntry (Some (T_Var (makeVar 1 2 1700 524294 0 0))) 2 "price" 2 false].

Definition sample_right : list TargetEntry :=
  [mkTargetEntry (Some (T_Var (makeVar 2 1 1043 14 100 0))) 1 "name" 1 false;
   mkTargetEntry (Some (T_Var (makeVar 2 2 1700 655366 0 0))) 2 "price" 2 false;
   mkTargetEntry (Some (T_Const (makeConst INT4OID (-1) 0 4 1 false true)))
                 3 "flag" 0 true].

Example generate_append_tlist_sample :
  generate_append_tlist sample_exprType sample_exprTypmod sample_garbage
    [1043; 1700] [100; 0] true [sample_left; sample_right] sample_left
  = Ok [mkTargetEntry (Some (T_Var (makeVar 0 1 1043 14 100 0))) 1 "name" 1 false;
        mkTargetEntry (Some (T_Var (makeVar 0 2 1700 (-1) 0 0))) 2 "price" 2 false;
        mkTargetEntry (Some (T_Var (makeVar 0 3 INT4OID (-1) 0 0))) 3 "flag" 0 true].
Proof. vm_compute. reflexivity. Qed.

Example generate_setop_tlist_sample :
  generate_setop_tlist sample_exprType sample_exprTypmod sample_exprCollation
    sample_coerce [1043; 1700] [100; 0] 1 7 true sample_left sample_left
  = Ok [mkTargetEntry (Some (T_Var (makeVar 7 1 1043 14 100 0))) 1 "name" 1 false;
        mkTargetEntry (Some (T_Var (makeVar 7 2 1700 524294 0 0))) 2 "price" 2 false;
        mkTargetEntry (Some (T_Const (makeConst INT4OID (-1) 0 4 1 false true)))
                      3 "flag" 0 true].
Proof. vm_compute. reflexivity. Qed.

(** A reference list shorter than the column list walks off its end. *)
Example generate_setop_tlist_short_refnames :
  generate_setop_tlist sample_exprType sample_exprTypmod sample_exprCollation
    sample_coerce [1043; 1700] [100; 0] (-1) 7 true sample_left [] = Trap.
Proof. reflexivity. Qed.

Lemma sample_inputs_shape (tl : list TargetEntry) :
  tl ∈ [sample_left; sample_right] -> length (nonjunk tl) = 2%nat.
Proof.
  intros Htl. apply elem_of_cons in Htl as [->|Htl]; [reflexivity|].
  apply list_elem_of_singleton in Htl as ->. reflexivity.
Defined.

Lemma append_tlist_typmod_agreement_witness :
  exists tlist tle var,
    generate_append_tlist sample_exprType sample_exprTypmod sample_garbage
      [1043; 1700] [100; 0] true [sample_left; sample_right] sample_left
      = Ok tlist /\
    tlist !! 1%nat = Some tle /\ expr tle = Some (T_Var var) /\
    vartypmod var = -1.
Proof.
  destruct (append_tlist_typmod_agreement sample_exprType sample_exprTypmod
              sample_garbage [1043; 1700] [100; 0] true sample_left
              [sample_right] sample_left 1%nat 1700)
    as (tlist & tle & var & Hrun & Hl & He & _ & _ & Hdiff).
  - exact sample_inputs_shape.
  - reflexivity.
  - cbn. lia.
  - cbn. lia.
  - exists tlist, tle, var. split; [exact Hrun|]. split; [exact Hl|].
    split; [exact He|]. apply Hdiff.
    eexists sample_right, _, _.
    split; [right; left|]. split; [reflexivity|]. split; [reflexivity|].
    right. cbn. discriminate.
Defined.

Lemma setop_tlists_keep_convention_witness :
  setop_tlist_convention (0 <=? 1)
    [mkTargetEntry (Some (T_Var (makeVar 7 1 1043 14 100 0))) 1 "name" 1 false;
     mkTargetEntry (Some (T_Var (makeVar 7 2 1700 524294 0 0))) 2 "price" 2 false;
     mkTargetEntry (Some (T_Const (makeConst INT4OID (-1) 0 4 1 false true)))
                   3 "flag" 0 true].
Proof.
  apply (proj1 (setop_tlists_keep_convention sample_exprType sample_exprTypmod
                  sample_exprCollation sample_coerce sample_garbage)
               [1043; 1700] [100; 0] 1 7 true sample_left sample_left).
  - cbn. lia.
  - vm_compute. reflexivity.
Defined.

End SetopTlist.

(** ** Paths and the services of the rest of the planner *)

Module Paths.

Inductive SetOperation := SETOP_NONE | SETOP_UNION | SETOP_INTERSECT | SETOP_EXCEPT.

Definition SetOperation_code (op : SetOperation) : Z :=
  match op with
  | SETOP_NONE => 0 | SETOP_UNION => 1 | SETOP_INTERSECT => 2 | SETOP_EXCEPT => 3
  end.

Definition SetOperation_eqb (a b : SetOperation) : bool :=
  SetOperation_code a =? SetOperation_code b.

(** A SetOperationStmt without its two arguments, which are the subtrees. *)
Record SetOperationStmt := mkSetOperationStmt {
  op : SetOperation;
  all : bool;
  colTypes : list Z;
  colTypmods : list Z;
  colCollations : list Z;
  groupClauses : list SortGroupClause
}.

(** The setOperations tree: RangeTblRef leaves under SetOperationStmt nodes;
    anything else is an unrecognized node. *)
Inductive SetOpTree :=
| Leaf (rtindex : Z)
| Op (stmt : SetOperationStmt) (larg rarg : SetOpTree)
| Unrecognized (tag : Z).

Inductive AggStrategy := AGG_PLAIN | AGG_SORTED | AGG_HASHED | AGG_MIXED.
Inductive SetOpCmd :=
| SETOPCMD_INTERSECT | SETOPCMD_INTERSECT_ALL | SETOPCMD_EXCEPT | SETOPCMD_EXCEPT_ALL.
Inductive SetOpStrategy := SETOP_SORTED | SETOP_HASHED.

(** create_pathtarget(root, tlist). *)
Inductive PathTarget := create_pathtarget (tlist : list TargetEntry).

(** Paths.  The path constructors of optimizer/util/pathnode.c are opaque
    services: a path records which constructor built it from which
    arguments.  [pathtarget] is [None] as long as the constructor's own choice
    stands, and [Some t] once this file has assigned the field. *)
Inductive Path :=
| MkPath (node : PathNode) (pathtarget : option PathTarget)
with PathNode :=
| T_Path (id : Z)                                   (* made by a collaborator *)
| T_RemoteSubPath (subpath : Path)
| T_SubqueryScanPath (rti : Z) (subpath : Path) (distribution : option Z)
| T_AppendPath (subpaths : list Path)
| T_SortPath (subpath : Path) (pathkeys : list Z) (limit_tuples : float)
| T_AggPath (subpath : Path) (target : PathTarget) (aggstrategy : AggStrategy)
            (groupClause : list SortGroupClause) (numGroups : float)
| T_UpperUniquePath (subpath : Path) (numCols : Z) (numGroups : float)
| T_SetOpPath (subpath : Path) (cmd : SetOpCmd) (strategy : SetOpStrategy)
              (distinctList : list SortGroupClause) (flagColIdx firstFlag : Z)
              (numGroups outputRows : float)
| T_RecursiveUnionPath (leftpath rightpath : Path) (target : PathTarget)
                       (distinctList : list SortGroupClause) (wtParam : Z)
                       (numGroups : float).

Definition pathnode (p : Path) : PathNode := match p with MkPath n _ => n end.

(** [path->pathtarget = target]. *)
Definition set_pathtarget (p : Path) (target : PathTarget) : Path :=
  match p with MkPath n _ => MkPath n (Some target) end.

Definition create_remotesubplan_path (subpath : Path) : Path :=
  MkPath (T_RemoteSubPath subpath) None.
Definition create_subqueryscan_path (rti : Z) (subpath : Path)
    (distribution : option Z) : Path :=
  MkPath (T_SubqueryScanPath rti subpath distribution) None.
Definition create_append_path (subpaths : list Path) : Path :=
  MkPath (T_AppendPath subpaths) None.
Definition create_sort_path (subpath : Path) (pathkeys : list Z)
    (limit_tuples : float) : Path :=
  MkPath (T_SortPath subpath pathkeys limit_tuples) None.
Definition create_agg_path (subpath : Path) (target : PathTarget)
    (aggstrategy : AggStrategy) (groupClause : list SortGroupClause)
    (numGroups : float) : Path :=
  MkPath (T_AggPath subpath target aggstrategy groupClause numGroups) None.
Definition create_upper_unique_path (subpath : Path) (numCols : Z)
    (numGroups : float) : Path :=
  MkPath (T_UpperUniquePath subpath numCols numGroups) None.
Definition create_setop_path (subpath : Path) (cmd : SetOpCmd)
    (strategy : SetOpStrategy) (distinctList : list SortGroupClause)
    (flagColIdx firstFlag : Z) (numGroups outputRows : float) : Path :=
  MkPath (T_SetOpPath subpath cmd strategy distinctList flagColIdx firstFlag
                      numGroups outputRows) None.
Definition create_recursiveunion_path (leftpath rightpath : Path)
    (target : PathTarget) (distinctList : list SortGroupClause) (wtParam : Z)
    (numGroups : float) : Path :=
  MkPath (T_RecursiveUnionPath leftpath rightpath target distinctList wtParam
                               numGroups) None.

(** The planner state this file reads and writes. *)
Record PlannerInfo := mkPlannerInfo {
  simple_rte_array : list (option RangeTblEntry);   (* slot 0 is unused *)
  tuple_fraction : float;
  recursiveOk : bool;
  plan_params : list Z;
  non_recursive_path : option Path;
  wt_param_id : Z;
  hasRecursion : bool
}.

Definition set_tuple_fraction (root : PlannerInfo) (f : float) : PlannerInfo :=
  mkPlannerInfo (simple_rte_array root) f (recursiveOk root) (plan_params root)
                (non_recursive_path root) (wt_param_id root) (hasRecursion root).
Definition set_recursiveOk (root : PlannerInfo) (b : bool) : PlannerInfo :=
  mkPlannerInfo (simple_rte_array root) (tuple_fraction root) b (plan_params root)
                (non_recursive_path root) (wt_param_id root) (hasRecursion root).
Definition set_plan_params (root : PlannerInfo) (l : list Z) : PlannerInfo :=
  mkPlannerInfo (simple_rte_array root) (tuple_fraction root) (recursiveOk root) l
                (non_recursive_path root) (wt_param_id root) (hasRecursion root).
Definition set_non_recursive_path (root : PlannerInfo) (p : option Path)
    : PlannerInfo :=
  mkPlannerInfo (simple_rte_array root) (tuple_fraction root) (recursiveOk root)
                (plan_params root) p (wt_param_id root) (hasRecursion root).

(** What the planner of a leaf subquery hands back. *)
Record SubRoot := mkSubRoot {
  sub_id : Z;
  processed_tlist : list TargetEntry;
  sub_recursiveOk : bool;
  hasHavingQual : bool;
  sub_distribution : option Z
}.

(** The dummy Paths of choose_hashed_setop hold cost fields only. *)
Record Cost := mkCost { startup_cost : float; total_cost : float }.

(** The collaborators of this file, with the configuration it reads. *)
Record Services := mkServices {
  (* optimizer/util/tlist.c *)
  grouping_is_sortable : list SortGroupClause -> bool;
  grouping_is_hashable : list SortGroupClause -> bool;
  tlist_same_datatypes : list TargetEntry -> list Z -> bool -> bool;
  tlist_same_collations : list TargetEntry -> list Z -> bool -> bool;
  (* nodes/nodeFuncs.c, parser/parse_coerce.c *)
  exprType : option Node -> Z;
  exprTypmod : option Node -> Z;
  exprCollation : option Node -> Z;
  coerce_to_common_type : Node -> Z -> string -> Res Node;
  (* optimizer/path/costsize.c: the cost fields written into the dummy path *)
  cost_agg : PlannerInfo -> AggStrategy -> Z -> float -> float -> float -> float
             -> Cost;
  cost_sort : PlannerInfo -> float -> float -> Z -> float -> Z -> float -> Cost;
  cost_group : PlannerInfo -> Z -> float -> float -> float -> float -> Cost;
  (* optimizer/util/pathnode.c *)
  compare_fractional_path_costs : Cost -> Cost -> float -> Z;
  apply_projection_to_path : Path -> PathTarget -> Path;
  (* the estimates a path carries *)
  path_rows : Path -> float;
  path_startup_cost : Path -> float;
  path_total_cost : Path -> float;
  path_width : Path -> Z;
  path_distribution : Path -> option Z;
  (* optimizer/plan/planner.c: the subroot and the parent's new plan_params *)
  subquery_planner : Query -> PlannerInfo -> float -> Res (SubRoot * list Z);
  get_cheapest_fractional_path : SubRoot -> float -> Path;
  (* utils/adt/selfuncs.c, optimizer/path/pathkeys.c *)
  estimate_num_groups : SubRoot -> list (option Node) -> float -> float;
  make_pathkeys_for_sortclauses : list SortGroupClause -> list TargetEntry
                                  -> list Z;
  (* configuration *)
  enable_hashagg : bool;
  work_mem : Z;
  MAXIMUM_ALIGNOF : Z;
  SizeofMinimalTupleHeader : Z;
  (* the content of a fresh palloc chunk and of an unassigned double local *)
  palloc_garbage : nat -> Z;
  unassigned_double : float
}.

End Paths.
Import Paths.

(** ** Hash or sort? *)

Module Chooser.

(** TYPEALIGN of c.h on a 64-bit uintptr_t. *)
Definition TYPEALIGN (ALIGNVAL LEN : Z) : Z :=
  Z.land ((LEN + (ALIGNVAL - 1)) mod 2 ^ 64) (Z.lnot (ALIGNVAL - 1)).

(** Integer to double conversions (values below 2^63). *)
Definition double_of_Size (n : Z) : float := PrimFloat.of_uint63 (Uint63.of_Z n).
Definition double_of_long (n : Z) : float := PrimFloat.of_uint63 (Uint63.of_Z n).

Definition could_not_implement {A} (construct : string) : Res A :=
  ereport_ERROR ERRCODE_FEATURE_NOT_SUPPORTED "could not implement %s"
    [A_str construct]
    "Some of the datatypes only support hashing, while others only support sorting.".

Section Chooser.

Variable svc : Services.

Definition MAXALIGN (LEN : Z) : Z := TYPEALIGN (MAXIMUM_ALIGNOF svc) LEN.

Definition hashentrysize (input_path : Path) : Z :=
  (MAXALIGN (path_width svc input_path)
   + MAXALIGN (SizeofMinimalTupleHeader svc)) mod 2 ^ 64.

(** [hashentrysize * dNumGroups > work_mem * 1024L]. *)
Definition hashtable_too_big (input_path : Path) (dNumGroups : float) : bool :=
  (double_of_long (work_mem svc * 1024)
   <? double_of_Size (hashentrysize input_path) * dNumGroups)%float.

Definition hashed_cost (root : PlannerInfo) (numGroupCols : Z)
    (input_path : Path) (dNumGroups : float) : Cost :=
  cost_agg svc root AGG_HASHED numGroupCols dNumGroups
           (path_startup_cost svc input_path) (path_total_cost svc input_path)
           (path_rows svc input_path).

Definition sorted_cost (root : PlannerInfo) (numGroupCols : Z)
    (input_path : Path) (dNumGroups : float) : Cost :=
  let sorted_p := mkCost (path_startup_cost svc input_path)
                         (path_total_cost svc input_path) in
  let sorted_p := cost_sort svc root (total_cost sorted_p)
                            (path_rows svc input_path)
                            (path_width svc input_path)
                            0%float (work_mem svc) (-1)%float in
  cost_group svc root numGroupCols dNumGroups
             (startup_cost sorted_p) (total_cost sorted_p)
             (path_rows svc input_path).

(** The LIMIT count turned into a fraction. *)
Definition limit_fraction (root : PlannerInfo) (dNumOutputRows : float) : float :=
  let tuple_fraction := tuple_fraction root in
  if (1 <=? tuple_fraction)%float then (tuple_fraction / dNumOutputRows)%float
  else tuple_fraction.

Definition choose_hashed_setop (root : PlannerInfo)
    (groupClauses : list SortGroupClause) (input_path : Path)
    (dNumGroups dNumOutputRows : float) (construct : string) : Res bool :=
  let numGroupCols := Z.of_nat (length groupClauses) in
  let can_sort := grouping_is_sortable svc groupClauses in
  let can_hash := grouping_is_hashable svc groupClauses in
  if can_hash && can_sort then
    (* we have a meaningful choice to make, continue ... *)
    (* Prefer sorting when enable_hashagg is off *)
    if negb (enable_hashagg svc) then Ok false
    else if hashtable_too_big input_path dNumGroups then Ok false
    else
      let hashed_p := hashed_cost root numGroupCols input_path dNumGroups in
      let sorted_p := sorted_cost root numGroupCols input_path dNumGroups in
      let tuple_fraction := limit_fraction root dNumOutputRows in
      if compare_fractional_path_costs svc hashed_p sorted_p tuple_fraction <? 0
      then Ok true      (* Hashed is cheaper, so use it *)
      else Ok false
  else if can_hash then Ok true
  else if can_sort then Ok false
  else could_not_implement construct.

(** C1. The decision procedure of choose_hashed_setop: hashable but not
    sortable grouping clauses give true whatever enable_hashagg, the memory
    estimate and the costs are; sortable but not hashable give false; neither
    raises the feature-not-supported error "could not implement %s" with the
    construct's name; with both, enable_hashagg off gives false, a hash table
    estimate (MAXALIGN(width) + MAXALIGN(SizeofMinimalTupleHeader)) *
    dNumGroups above work_mem * 1024 gives false, and otherwise the answer is
    true exactly when the fractional cost comparison of the hashed dummy path
    with the sort-and-group dummy path is negative, the tuple fraction being
    divided by dNumOutputRows when it is at least 1.0; a tie gives false. *)
Theorem choose_hashed_setop_decision (root : PlannerInfo)
    (groupClauses : list SortGroupClause) (input_path : Path)
    (dNumGroups dNumOutputRows : float) (construct : string) :
  let can_sort := grouping_is_sortable svc groupClauses in
  let can_hash := grouping_is_hashable svc groupClauses in
  let numGroupCols := Z.of_nat (length groupClauses) in
  let entrysize :=
    (TYPEALIGN (MAXIMUM_ALIGNOF svc) (path_width svc input_path)
     + TYPEALIGN (MAXIMUM_ALIGNOF svc) (SizeofMinimalTupleHeader svc))
    mod 2 ^ 64 in
  let too_big :=
    (double_of_long (work_mem svc * 1024)
     <? double_of_Size entrysize * dNumGroups)%float in
  let fraction :=
    if (1 <=? tuple_fraction root)%float
    then (tuple_fraction root / dNumOutputRows)%float
    else tuple_fraction root in
  let comparison :=
    compare_fractional_path_costs svc
      (hashed_cost root numGroupCols input_path dNumGroups)
      (sorted_cost root numGroupCols input_path dNumGroups) fraction in
  let result :=
    choose_hashed_setop root groupClauses input_path dNumGroups
                        dNumOutputRows construct in
  (can_hash = true -> can_sort = false -> result = Ok true) /\
  (can_hash = false -> can_sort = true -> result = Ok false) /\
  (can_hash = false -> can_sort = false ->
     exists detail,
       result = Raise (mkError ERRCODE_FEATURE_NOT_SUPPORTED
                               "could not implement %s" [A_str construct]
                               (Some detail))) /\
  (can_hash = true -> can_sort = true ->
     (enable_hashagg svc = false -> result = Ok false) /\
     (enable_hashagg svc = true -> too_big = true -> result = Ok false) /\
     (enable_hashagg svc = true -> too_big = false ->
        result = Ok (comparison <? 0) /\
        (comparison = 0 -> result = Ok false) /\
        (result = Ok true <-> comparison < 0))).
Proof.
  intros can_sort can_hash numGroupCols entrysize too_big fraction comparison
         result.
  assert (Hres : result = choose_hashed_setop root groupClauses input_path
                            dNumGroups dNumOutputRows construct) by reflexivity.
  unfold choose_hashed_setop in Hres.
  fold can_sort in Hres. fold can_hash in Hres.
  split; [|split; [|split]].
  - intros Hh Hs. rewrite Hres, Hh, Hs. reflexivity.
  - intros Hh Hs. rewrite Hres, Hh, Hs. reflexivity.
  - intros Hh Hs. rewrite Hres, Hh, Hs. eexists. reflexivity.
  - intros Hh Hs. rewrite Hh, Hs in Hres. cbn [andb] in Hres.
    split; [|split].
    + intros He. rewrite Hres, He. reflexivity.
    + intros He Hbig. rewrite Hres, He. cbn [negb].
      change (hashtable_too_big input_path dNumGroups) with too_big.
      rewrite Hbig. reflexivity.
    + intros He Hbig. rewrite He in Hres. cbn [negb] in Hres.
      change (hashtable_too_big input_path dNumGroups) with too_big in Hres.
      rewrite Hbig in Hres.
      change (compare_fractional_path_costs svc _ _ _) with comparison in Hres.
      assert (Hcmp : result = Ok (comparison <? 0))
        by (rewrite Hres; destruct (comparison <? 0); reflexivity).
      split; [exact Hcmp|]. split.
      * intros H0. rewrite Hcmp, H0. reflexivity.
      * rewrite Hcmp. split.
        -- intros Heq. injection Heq as Heq. by apply Z.ltb_lt.
        -- intros Hlt. apply Z.ltb_lt in Hlt. by rewrite Hlt.
Qed.

End Chooser.
End Chooser.

(** ** The set-operation tree planner *)

Module SetopPlanner.
Import SetopTlist Chooser.

(** Planning reads and writes the PlannerInfo and may raise. *)
Definition M (A : Type) : Type := PlannerInfo -> Res (A * PlannerInfo).

Definition ret {A} (a : A) : M A := fun root => Ok (a, root).

Definition bind {A B} (m : M A) (k : A -> M B) : M B :=
  fun root =>
    match m root with
    | Ok (a, root') => k a root'
    | Raise e => Raise e
    | Trap => Trap
    end.

Definition lift {A} (r : Res A) : M A :=
  fun root =>
    match r with
    | Ok a => Ok (a, root)
    | Raise e => Raise e
    | Trap => Trap
    end.

Definition get_root : M PlannerInfo := fun root => Ok (root, root).
Definition put_root (root : PlannerInfo) : M unit := fun _ => Ok (tt, root).

Lemma bind_run {A B} (m : M A) (k : A -> M B) (root : PlannerInfo) :
  bind m k root = match m root with
                  | Ok (a, root') => k a root'
                  | Raise e => Raise e
                  | Trap => Trap
                  end.
Proof. reflexivity. Qed.

(** Run the binds of a computation applied to a state. *)
Ltac run_plan :=
  repeat first
    [ rewrite bind_run
    | progress unfold ret, lift, get_root, put_root
    | progress cbn beta iota ].

Declare Scope plan_scope.
Delimit Scope plan_scope with plan.
Notation "'let*' x := c1 'in' c2" := (bind c1 (fun x => c2))
  (at level 10, x pattern, c1 at level 100, c2 at level 200) : plan_scope.
Local Open Scope plan_scope.

(** What recurse_set_operations hands back: the path, *pTargetList, and the
    value stored through pNumGroups when something was stored. *)
Definition Planned : Type := Path * list TargetEntry * option float.

(** recurse_set_operations with its node argument applied. *)
Definition planner_fn : Type :=
  list Z -> list Z -> bool -> Z -> list TargetEntry -> bool -> M Planned.

(** recurse_union_children with its node and top_union arguments applied:
    the child paths and *tlist_list. *)
Definition children_fn : Type :=
  list TargetEntry -> M (list Path * list (list TargetEntry)).

(** get_tlist_exprs(tlist, includeJunk) of optimizer/util/tlist.c. *)
Definition get_tlist_exprs (tlist : list TargetEntry) (includeJunk : bool)
    : list (option Node) :=
  map expr (filter (fun tle => includeJunk || negb (resjunk tle) = true) tlist).

(** Min of c.h. *)
Definition Min (x y : float) : float := if (x <? y)%float then x else y.

Definition is_nil {A} (l : list A) : bool :=
  match l with [] => true | _ => false end.

Section SetopPlanner.

Variable svc : Services.

Local Abbreviation generate_setop_tlist :=
  (SetopTlist.generate_setop_tlist (exprType svc) (exprTypmod svc)
     (exprCollation svc) (coerce_to_common_type svc)).
Local Abbreviation generate_append_tlist :=
  (SetopTlist.generate_append_tlist (exprType svc) (exprTypmod svc)
     (palloc_garbage svc)).

(** The IsA(setOp, RangeTblRef) branch of recurse_set_operations. *)
Definition plan_leaf (rtindex : Z) (colTypes colCollations : list Z)
    (junkOK : bool) (flag : Z) (refnames_tlist : list TargetEntry)
    (want_groups : bool) : M Planned :=
  let* root := get_root in
  let* rte := lift (match simple_rte_array root !! Z.to_nat rtindex with
                    | Some (Some rte) => Ok rte
                    | _ => Trap
                    end) in
  let* subquery := lift (match subquery rte with
                         | Some q => Ok q
                         | None => Trap
                         end) in
  (* Generate a subroot and Paths for the subquery *)
  let* (subroot, params) :=
    lift (subquery_planner svc subquery root (tuple_fraction root)) in
  let root := set_plan_params root params in
  let root :=
    if recursiveOk root then set_recursiveOk root (sub_recursiveOk subroot)
    else root in
  let* _ := put_root root in
  if negb (is_nil (plan_params root)) then
    lift (elog_ERROR "unexpected outer reference in set operation subquery" [])
  else
    let subpath :=
      get_cheapest_fractional_path svc subroot (tuple_fraction root) in
    (* create remote_subplan_path if needed *)
    let '(subpath, distribution) :=
      match path_distribution svc subpath with
      | Some _ => (create_remotesubplan_path subpath, None)
      | None => (subpath, sub_distribution subroot)
      end in
    (* Stick a SubqueryScanPath atop that *)
    let path := create_subqueryscan_path rtindex subpath distribution in
    let* tlist :=
      lift (generate_setop_tlist colTypes colCollations flag rtindex true
                                 (processed_tlist subroot) refnames_tlist) in
    let path := apply_projection_to_path svc path (create_pathtarget tlist) in
    let groups :=
      if want_groups then
        if negb (is_nil (groupClause subquery))
           || negb (is_nil (groupingSets subquery))
           || negb (is_nil (distinctClause subquery))
           || hasHavingQual subroot || hasAggs subquery
        then Some (path_rows svc subpath)
        else Some (estimate_num_groups svc subroot
                     (get_tlist_exprs (targetList subquery) false)
                     (path_rows svc subpath))
      else None in
    ret (path, tlist, groups).

(** make_union_unique *)
Definition make_union_unique (op : SetOperationStmt) (path : Path)
    (tlist : list TargetEntry) : M Path :=
  let* root := get_root in
  let* groupList := lift (generate_setop_grouplist (groupClauses op) tlist) in
  (* punt if nothing to group on *)
  if is_nil groupList then ret path
  else
    let dNumGroups := path_rows svc path in
    let* use_hash :=
      lift (choose_hashed_setop svc root groupList path dNumGroups dNumGroups
                                "UNION") in
    if use_hash then
      (* Hashed aggregate plan --- no sort needed *)
      ret (create_agg_path path (create_pathtarget tlist) AGG_HASHED groupList
                           dNumGroups)
    else
      (* Sort and Unique *)
      let pathkeys := make_pathkeys_for_sortclauses svc groupList tlist in
      let path := create_sort_path path pathkeys (-1)%float in
      let path := set_pathtarget path (create_pathtarget tlist) in
      ret (create_upper_unique_path path (Z.of_nat (length pathkeys))
                                    dNumGroups).

(** generate_union_path; [children_l] and [children_r] are the two calls of
    recurse_union_children, left argument first. *)
Definition generate_union_path_with (op : SetOperationStmt)
    (children_l children_r : children_fn)
    (refnames_tlist : list TargetEntry) (want_groups : bool) : M Planned :=
  let* root := get_root in
  let save_fraction := tuple_fraction root in
  (* If plain UNION, tell children to fetch all tuples *)
  let* _ := (if negb (all op) then put_root (set_tuple_fraction root 0%float)
             else ret tt) in
  let* (pathlist1, child_tlists1) := children_l refnames_tlist in
  let* (pathlist2, child_tlists2) := children_r refnames_tlist in
  let pathlist := pathlist1 ++ pathlist2 in
  let tlist_list := child_tlists1 ++ child_tlists2 in
  let* tlist :=
    lift (generate_append_tlist (colTypes op) (colCollations op) false
                                tlist_list refnames_tlist) in
  (* Append the child results together *)
  let path := create_append_path pathlist in
  let path := set_pathtarget path (create_pathtarget tlist) in
  let* path := (if negb (all op) then make_union_unique op path tlist
                else ret path) in
  let groups := if want_groups then Some (path_rows svc path) else None in
  (* Undo effects of possibly forcing tuple_fraction to 0 *)
  let* root := get_root in
  let* _ := put_root (set_tuple_fraction root save_fraction) in
  ret (path, tlist, groups).

Definition setop_cmd (op : SetOperationStmt) : Res SetOpCmd :=
  match Paths.op op with
  | SETOP_INTERSECT =>
      Ok (if all op then SETOPCMD_INTERSECT_ALL else SETOPCMD_INTERSECT)
  | SETOP_EXCEPT =>
      Ok (if all op then SETOPCMD_EXCEPT_ALL else SETOPCMD_EXCEPT)
  | other =>
      elog_ERROR "unrecognized set op: %d" [A_int (SetOperation_code other)]
  end.

Definition construct_name (op : SetOperationStmt) : string :=
  if SetOperation_eqb (Paths.op op) SETOP_INTERSECT then "INTERSECT"
  else "EXCEPT".

(** generate_nonunion_path; [plan_l] and [plan_r] are recurse_set_operations
    on the two arguments. *)
Definition generate_nonunion_path_with (op : SetOperationStmt)
    (plan_l plan_r : planner_fn)
    (refnames_tlist : list TargetEntry) (want_groups : bool) : M Planned :=
  let* root := get_root in
  let save_fraction := tuple_fraction root in
  (* Tell children to fetch all tuples *)
  let* _ := put_root (set_tuple_fraction root 0%float) in
  (* Recurse on children, ensuring their outputs are marked *)
  let* (lpath, lpath_tlist, lgroups) :=
    plan_l (colTypes op) (colCollations op) false 0 refnames_tlist true in
  let* (rpath, rpath_tlist, rgroups) :=
    plan_r (colTypes op) (colCollations op) false 1 refnames_tlist true in
  let dLeftGroups := default (unassigned_double svc) lgroups in
  let dRightGroups := default (unassigned_double svc) rgroups in
  (* Undo effects of forcing tuple_fraction to 0 *)
  let* root := get_root in
  let root := set_tuple_fraction root save_fraction in
  let* _ := put_root root in
  let '(pathlist, tlist_list, firstFlag) :=
    if SetOperation_eqb (Paths.op op) SETOP_EXCEPT
       || (dLeftGroups <=? dRightGroups)%float
    then ([lpath; rpath], [lpath_tlist; rpath_tlist], 0)
    else ([rpath; lpath], [rpath_tlist; lpath_tlist], 1) in
  let* tlist :=
    lift (generate_append_tlist (colTypes op) (colCollations op) true
                                tlist_list refnames_tlist) in
  (* Append the child results together *)
  let path := create_append_path pathlist in
  let path := set_pathtarget path (create_pathtarget tlist) in
  (* Identify the grouping semantics *)
  let* groupList := lift (generate_setop_grouplist (groupClauses op) tlist) in
  (* punt if nothing to group on; *pNumGroups stays unassigned *)
  if is_nil groupList then ret (path, tlist, None)
  else
    let '(dNumGroups, dNumOutputRows) :=
      if SetOperation_eqb (Paths.op op) SETOP_EXCEPT then
        (dLeftGroups,
         if all op then path_rows svc lpath else dLeftGroups)
      else
        (Min dLeftGroups dRightGroups,
         if all op then Min (path_rows svc lpath) (path_rows svc rpath)
         else Min dLeftGroups dRightGroups) in
    (* Decide whether to hash or sort, and add a sort node if needed *)
    let* use_hash :=
      lift (choose_hashed_setop svc root groupList path dNumGroups
                                dNumOutputRows (construct_name op)) in
    let path :=
      if negb use_hash then
        create_sort_path path
          (make_pathkeys_for_sortclauses svc groupList tlist) (-1)%float
      else path in
    (* Finally, add a SetOp path node to generate the correct output *)
    let* cmd := lift (setop_cmd op) in
    let path :=
      create_setop_path path cmd
        (if use_hash then SETOP_HASHED else SETOP_SORTED) groupList
        (Z.of_nat (length (colTypes op)) + 1)
        (if use_hash then firstFlag else -1)
        dNumGroups dNumOutputRows in
    ret (path, tlist, if want_groups then Some dNumGroups else None).

(** The IsA(setOp, SetOperationStmt) branch of recurse_set_operations. *)
Definition plan_setop_node (op : SetOperationStmt)
    (children_l children_r : children_fn) (plan_l plan_r : planner_fn)
    (colTypes colCollations : list Z) (junkOK : bool) (flag : Z)
    (refnames_tlist : list TargetEntry) (want_groups : bool) : M Planned :=
  (* UNIONs are much different from INTERSECT/EXCEPT *)
  let* (path, tlist, groups) :=
    (if SetOperation_eqb (Paths.op op) SETOP_UNION
     then generate_union_path_with op children_l children_r refnames_tlist
                                   want_groups
     else generate_nonunion_path_with op plan_l plan_r refnames_tlist
                                      want_groups) in
  (* If necessary, add a Result node to project the caller-requested output
     columns *)
  if (0 <=? flag)
     || negb (tlist_same_datatypes svc tlist colTypes junkOK)
     || negb (tlist_same_collations svc tlist colCollations junkOK)
  then
    let* tlist :=
      lift (generate_setop_tlist colTypes colCollations flag 0 false tlist
                                 refnames_tlist) in
    let path := apply_projection_to_path svc path (create_pathtarget tlist) in
    ret (path, tlist, groups)
  else ret (path, tlist, groups).

Definition unrecognized_node {A} (tag : Z) : M A :=
  lift (elog_ERROR "unrecognized node type: %d" [A_int tag]).

(** The fold test of recurse_union_children. *)
Definition same_union (op top_union : SetOperationStmt) : bool :=
  SetOperation_eqb (Paths.op op) (Paths.op top_union)
  && (eqb (all op) (all top_union) || all op)
  && bool_decide (colTypes op = colTypes top_union).

Definition concat_children
    (children_l children_r : M (list Path * list (list TargetEntry)))
    : M (list Path * list (list TargetEntry)) :=
  let* (result1, child_tlists1) := children_l in
  let* (result2, child_tlists2) := children_r in
  ret (result1 ++ result2, child_tlists1 ++ child_tlists2).

(** "Not same, so plan this child separately." *)
Definition single_child (top_union : SetOperationStmt)
    (refnames_tlist : list TargetEntry) (plan : planner_fn)
    : M (list Path * list (list TargetEntry)) :=
  let* (path, child_tlist, _) :=
    plan (colTypes top_union) (colCollations top_union) false (-1)
         refnames_tlist false in
  ret ([path], [child_tlist]).

(** recurse_set_operations and recurse_union_children.  In the C code the
    latter calls the former on the same node; here that call is unfolded by
    one step, so that both functions recurse on the two arguments of the
    node (see [recurse_union_children_unfold]). *)
Fixpoint recurse_set_operations (setOp : SetOpTree) {struct setOp} : planner_fn :=
  match setOp with
  | Leaf rtindex => plan_leaf rtindex
  | Op op larg rarg =>
      plan_setop_node op
        (recurse_union_children larg op) (recurse_union_children rarg op)
        (recurse_set_operations larg) (recurse_set_operations rarg)
  | Unrecognized tag => fun _ _ _ _ _ _ => unrecognized_node tag
  end
with recurse_union_children (setOp : SetOpTree) (top_union : SetOperationStmt)
    {struct setOp} : children_fn :=
  fun refnames_tlist =>
  match setOp with
  | Op op larg rarg =>
      if same_union op top_union then
        (* Same UNION, so fold children into parent's subpath list *)
        concat_children (recurse_union_children larg top_union refnames_tlist)
                        (recurse_union_children rarg top_union refnames_tlist)
      else
        single_child top_union refnames_tlist
          (plan_setop_node op
             (recurse_union_children larg op) (recurse_union_children rarg op)
             (recurse_set_operations larg) (recurse_set_operations rarg))
  | Leaf rtindex =>
      single_child top_union refnames_tlist (plan_leaf rtindex)
  | Unrecognized tag =>
      single_child top_union refnames_tlist
                   (fun _ _ _ _ _ _ => unrecognized_node tag)
  end.


Definition generate_union_path (op : SetOperationStmt) (larg rarg : SetOpTree)
    (refnames_tlist : list TargetEntry) (want_groups : bool) : M Planned :=
  generate_union_path_with op
    (recurse_union_children larg op) (recurse_union_children rarg op)
    refnames_tlist want_groups.

Definition generate_nonunion_path (op : SetOperationStmt)
    (larg rarg : SetOpTree) (refnames_tlist : list TargetEntry)
    (want_groups : bool) : M Planned :=
  generate_nonunion_path_with op
    (recurse_set_operations larg) (recurse_set_operations rarg)
    refnames_tlist want_groups.

(** strip_remote_subquery: remove RemoteSubquery from the top of the path.
    The scan's param_info, pathkeys, distribution and costs are taken again
    from its new subpath. *)
Fixpoint strip_remote_subquery (path : Path) : Path :=
  match path with
  | MkPath (T_RemoteSubPath subpath) _ => subpath
  | MkPath (T_SubqueryScanPath rti subpath _) target =>
      let subpath := strip_remote_subquery subpath in
      MkPath (T_SubqueryScanPath rti subpath (path_distribution svc subpath))
             target
  | _ => path
  end.

Definition could_not_implement_recursive_union {A} : Res A :=
  ereport_ERROR ERRCODE_FEATURE_NOT_SUPPORTED
    "could not implement recursive UNION" []
    "All column datatypes must be hashable.".

(** generate_recursion_path *)
Definition generate_recursion_path (setOp : SetOperationStmt)
    (larg rarg : SetOpTree) (refnames_tlist : list TargetEntry)
    : M (Path * list TargetEntry) :=
  (* Parser should have rejected other cases *)
  if negb (SetOperation_eqb (op setOp) SETOP_UNION) then
    lift (elog_ERROR "only UNION queries can be recursive" [])
  else
    let* (lpath, lpath_tlist, _) :=
      recurse_set_operations larg (colTypes setOp) (colCollations setOp)
                             false (-1) refnames_tlist false in
    (* The right path will want to look at the left one ... *)
    let* root := get_root in
    let* _ := put_root (set_non_recursive_path root (Some lpath)) in
    let* (rpath, rpath_tlist, _) :=
      recurse_set_operations rarg (colTypes setOp) (colCollations setOp)
                             false (-1) refnames_tlist false in
    let* root := get_root in
    let* _ := put_root (set_non_recursive_path root None) in
    let* tlist :=
      lift (generate_append_tlist (colTypes setOp) (colCollations setOp) false
                                  [lpath_tlist; rpath_tlist] refnames_tlist) in
    (* If UNION, identify the grouping operators *)
    let* (groupList, dNumGroups) :=
      (if all setOp then ret ([], 0%float)
       else
         let* groupList :=
           lift (generate_setop_grouplist (groupClauses setOp) tlist) in
         (* We only support hashing here *)
         if negb (grouping_is_hashable svc groupList) then
           lift could_not_implement_recursive_union
         else
           ret (groupList,
                (path_rows svc lpath + path_rows svc rpath * 10)%float)) in
    let rpath := strip_remote_subquery rpath in
    let lpath := strip_remote_subquery lpath in
    let* root := get_root in
    ret (create_recursiveunion_path lpath rpath (create_pathtarget tlist)
                                    groupList (wt_param_id root) dNumGroups,
         tlist).

(** The leftmost leaf of the tree under the top node. *)
Fixpoint leftmost (node : SetOpTree) : SetOpTree :=
  match node with
  | Op _ larg _ => leftmost larg
  | _ => node
  end.

(** plan_set_operations: the path added to the (SETOP, NULL) upper rel, and
    root->processed_tlist. *)
Definition plan_set_operations (topop : SetOperationStmt)
    (larg rarg : SetOpTree) : M (Path * list TargetEntry) :=
  let* root := get_root in
  let* leftmostQuery :=
    lift (match leftmost larg with
          | Leaf rtindex =>
              match simple_rte_array root !! Z.to_nat rtindex with
              | Some (Some rte) =>
                  match subquery rte with
                  | Some q => Ok q
                  | None => Trap
                  end
              | _ => Trap
              end
          | _ => Trap
          end) in
  if hasRecursion root then
    generate_recursion_path topop larg rarg (targetList leftmostQuery)
  else
    let* (path, top_tlist, _) :=
      recurse_set_operations (Op topop larg rarg) (colTypes topop)
                             (colCollations topop) true (-1)
                             (targetList leftmostQuery) false in
    ret (path, top_tlist).

(** *** The two recursive functions as the C code writes them *)

Lemma recurse_set_operations_Op (op : SetOperationStmt) (larg rarg : SetOpTree)
    (colTypes colCollations : list Z) (junkOK : bool) (flag : Z)
    (refnames_tlist : list TargetEntry) (want_groups : bool) :
  recurse_set_operations (Op op larg rarg) colTypes colCollations junkOK flag
                         refnames_tlist want_groups
  = plan_setop_node op
      (recurse_union_children larg op) (recurse_union_children rarg op)
      (recurse_set_operations larg) (recurse_set_operations rarg)
      colTypes colCollations junkOK flag refnames_tlist want_groups.
Proof. reflexivity. Qed.

Lemma recurse_union_children_unfold (setOp : SetOpTree)
    (top_union : SetOperationStmt) (refnames_tlist : list TargetEntry) :
  recurse_union_children setOp top_union refnames_tlist
  = match setOp with
    | Op op larg rarg =>
        if same_union op top_union then
          concat_children
            (recurse_union_children larg top_union refnames_tlist)
            (recurse_union_children rarg top_union refnames_tlist)
        else
          single_child top_union refnames_tlist (recurse_set_operations setOp)
    | _ => single_child top_union refnames_tlist (recurse_set_operations setOp)
    end.
Proof. destruct setOp; reflexivity. Qed.


(** *** Flattening of UNION trees (C3) *)

Fixpoint leaves (setOp : SetOpTree) : list Z :=
  match setOp with
  | Leaf rtindex => [rtindex]
  | Op _ larg rarg => leaves larg ++ leaves rarg
  | Unrecognized _ => []
  end.

(** Every SetOperationStmt of the tree is a UNION ALL with these column
    types. *)
Fixpoint pure_union_all (types : list Z) (setOp : SetOpTree) : Prop :=
  match setOp with
  | Leaf _ => True
  | Op op larg rarg =>
      Paths.op op = SETOP_UNION /\ all op = true /\ colTypes op = types /\
      pure_union_all types larg /\ pure_union_all types rarg
  | Unrecognized _ => False
  end.

(** Plan the leaves one after the other, each as a separate child of
    top_union. *)
Fixpoint plan_leaves (top_union : SetOperationStmt)
    (refnames_tlist : list TargetEntry) (rtindexes : list Z)
    : M (list Path * list (list TargetEntry)) :=
  match rtindexes with
  | [] => ret ([], [])
  | rtindex :: rest =>
      let* (path, child_tlist, _) :=
        plan_leaf rtindex (colTypes top_union) (colCollations top_union)
                  false (-1) refnames_tlist false in
      let* (paths, child_tlists) := plan_leaves top_union refnames_tlist rest in
      ret (path :: paths, child_tlist :: child_tlists)
  end.

Lemma plan_leaves_app (top_union : SetOperationStmt)
    (refnames_tlist : list TargetEntry) (a b : list Z) (root : PlannerInfo) :
  plan_leaves top_union refnames_tlist (a ++ b) root
  = concat_children (plan_leaves top_union refnames_tlist a)
                    (plan_leaves top_union refnames_tlist b) root.
Proof.
  revert root. induction a as [|rti a IH]; intros root.
  - cbn. unfold concat_children, bind, ret.
    destruct (plan_leaves top_union refnames_tlist b root)
      as [[[pl tls] root']| |]; reflexivity.
  - cbn [app plan_leaves]. unfold concat_children. rewrite !bind_run.
    destruct (plan_leaf rti _ _ false (-1) refnames_tlist false root)
      as [[[[p tl] g] root1]| |]; [|reflexivity..].
    rewrite !bind_run, IH. unfold concat_children. rewrite !bind_run.
    destruct (plan_leaves top_union refnames_tlist a root1)
      as [[[pl1 tls1] root2]| |]; [|reflexivity..].
    run_plan.
    destruct (plan_leaves top_union refnames_tlist b root2)
      as [[[pl2 tls2] root3]| |]; reflexivity.
Qed.

Lemma plan_leaves_one_per_leaf (top_union : SetOperationStmt)
    (refnames_tlist : list TargetEntry) (rtindexes : list Z) :
  forall root paths child_tlists root',
  plan_leaves top_union refnames_tlist rtindexes root
    = Ok ((paths, child_tlists), root') ->
  length paths = length rtindexes /\
  length child_tlists = length rtindexes /\
  forall (i : nat) path, paths !! i = Some path ->
    exists rtindex subpath distribution tlist,
      rtindexes !! i = Some rtindex /\
      path = apply_projection_to_path svc
               (create_subqueryscan_path rtindex subpath distribution)
               (create_pathtarget tlist).
Proof.
  induction rtindexes as [|rti rest IH]; intros root paths tls root' Hrun.
  - cbn in Hrun. injection Hrun as <- <- <-. split; [done|]. split; [done|].
    intros i p Hp. by rewrite lookup_nil in Hp.
  - cbn [plan_leaves] in Hrun. unfold bind at 1 in Hrun.
    destruct (plan_leaf rti _ _ false (-1) refnames_tlist false root)
      as [[[[p tl] g] root1]| |] eqn:Hleaf; try discriminate.
    unfold bind at 1 in Hrun.
    destruct (plan_leaves top_union refnames_tlist rest root1)
      as [[[ps tls'] root2]| |] eqn:Hrest; try discriminate.
    injection Hrun as <- <- <-.
    destruct (IH _ _ _ _ Hrest) as (Hlp & Hlt & Hshape).
    split; [cbn; lia|]. split; [cbn; lia|].
    intros [|i] path Hp; [|by apply Hshape].
    injection Hp as <-.
    (* the leaf's path is the projected subquery scan *)
    unfold plan_leaf, bind, lift, get_root, put_root, ret in Hleaf.
    repeat match type of Hleaf with
           | match (match ?x with _ => _ end) with _ => _ end = _ =>
               destruct x; try discriminate
           | (let '(_, _) := ?x in _) _ = _ => destruct x
           | (if ?c then _ else _) _ = _ => destruct c; try discriminate
           end.
    injection Hleaf as <- _ _ _.
    eexists rti, _, _, _. split; reflexivity.
Qed.

Lemma same_union_pure (op top_union : SetOperationStmt) :
  Paths.op top_union = SETOP_UNION ->
  Paths.op op = SETOP_UNION -> all op = true ->
  colTypes op = colTypes top_union ->
  same_union op top_union = true.
Proof.
  intros Htop Hop Hall Htypes. unfold same_union.
  rewrite Hop, Htop, Hall, orb_true_r. cbn.
  by apply bool_decide_eq_true.
Qed.

Lemma recurse_union_children_flat (top_union : SetOperationStmt)
    (refnames_tlist : list TargetEntry) (setOp : SetOpTree) :
  Paths.op top_union = SETOP_UNION ->
  pure_union_all (colTypes top_union) setOp ->
  forall root,
    recurse_union_children setOp top_union refnames_tlist root
    = plan_leaves top_union refnames_tlist (leaves setOp) root.
Proof.
  intros Htop. induction setOp as [rti|op larg IHl rarg IHr|tag];
    intros Hpure root.
  - cbn. unfold single_child, bind, ret.
    destruct (plan_leaf rti _ _ false (-1) refnames_tlist false root)
      as [[[[p tl] g] root1]| |]; reflexivity.
  - destruct Hpure as (Hop & Hall & Htypes & Hl & Hr).
    rewrite recurse_union_children_unfold.
    rewrite (same_union_pure op top_union Htop Hop Hall Htypes).
    cbn [leaves]. rewrite plan_leaves_app.
    unfold concat_children, bind. rewrite (IHl Hl root).
    destruct (plan_leaves top_union refnames_tlist (leaves larg) root)
      as [[[pl tls] root1]| |]; [|reflexivity..].
    rewrite (IHr Hr root1). reflexivity.
  - destruct Hpure.
Qed.

(** C3. recurse_union_children folds a child SetOperationStmt into the
    parent's child list exactly when the operators are equal, the child's ALL
    flag equals the parent's or is true, and the column type lists are equal;
    the test does not look at the collations; otherwise the child is planned
    on its own.  Hence under a UNION ALL whose tree holds only UNION ALL
    nodes with its column types, generate_union_path plans the leaves one by
    one and builds a single Append over their paths, one per leaf. *)
Theorem union_children_flattened (top_union : SetOperationStmt)
    (refnames_tlist : list TargetEntry) :
  (forall op larg rarg,
     recurse_union_children (Op op larg rarg) top_union refnames_tlist
     = if SetOperation_eqb (Paths.op op) (Paths.op top_union)
          && (eqb (all op) (all top_union) || all op)
          && bool_decide (colTypes op = colTypes top_union)
       then concat_children
              (recurse_union_children larg top_union refnames_tlist)
              (recurse_union_children rarg top_union refnames_tlist)
       else single_child top_union refnames_tlist
              (recurse_set_operations (Op op larg rarg))) /\
  (forall op collations,
     same_union (mkSetOperationStmt (Paths.op op) (all op) (colTypes op)
                   (colTypmods op) collations (groupClauses op)) top_union
     = same_union op top_union) /\
  (forall larg rarg want_groups root,
     Paths.op top_union = SETOP_UNION -> all top_union = true ->
     pure_union_all (colTypes top_union) larg ->
     pure_union_all (colTypes top_union) rarg ->
     generate_union_path top_union larg rarg refnames_tlist want_groups root
     = match plan_leaves top_union refnames_tlist
               (leaves (Op top_union larg rarg)) root with
       | Ok ((paths, child_tlists), root') =>
           match generate_append_tlist (colTypes top_union)
                   (colCollations top_union) false child_tlists
                   refnames_tlist with
           | Ok tlist =>
               let path := MkPath (T_AppendPath paths)
                                  (Some (create_pathtarget tlist)) in
               Ok ((path, tlist,
                    if want_groups then Some (path_rows svc path) else None),
                   set_tuple_fraction root' (tuple_fraction root))
           | Raise e => Raise e
           | Trap => Trap
           end
       | Raise e => Raise e
       | Trap => Trap
       end) /\
  (forall rtindexes root paths child_tlists root',
     plan_leaves top_union refnames_tlist rtindexes root
       = Ok ((paths, child_tlists), root') ->
     length paths = length rtindexes /\
     forall (i : nat) path, paths !! i = Some path ->
       exists rtindex subpath distribution tlist,
         rtindexes !! i = Some rtindex /\
         path = apply_projection_to_path svc
                  (create_subqueryscan_path rtindex subpath distribution)
                  (create_pathtarget tlist)).
Proof.
  split; [|split; [|split]].
  - intros op larg rarg. exact (recurse_union_children_unfold _ _ _).
  - reflexivity.
  - intros larg rarg want_groups root Htop Hall Hl Hr.
    cbn [leaves]. rewrite plan_leaves_app.
    unfold generate_union_path, generate_union_path_with.
    rewrite Hall. cbn [negb].
    unfold concat_children, bind, get_root, put_root, ret, lift.
    rewrite (recurse_union_children_flat top_union refnames_tlist larg Htop Hl).
    destruct (plan_leaves top_union refnames_tlist (leaves larg) root)
      as [[[pl1 tls1] root1]| |]; [|reflexivity..].
    rewrite (recurse_union_children_flat top_union refnames_tlist rarg Htop Hr).
    destruct (plan_leaves top_union refnames_tlist (leaves rarg) root1)
      as [[[pl2 tls2] root2]| |]; [|reflexivity..].
    destruct (generate_append_tlist _ _ false (tls1 ++ tls2) refnames_tlist);
      reflexivity.
  - intros rtindexes root paths tls root' Hrun.
    destruct (plan_leaves_one_per_leaf _ _ _ _ _ _ _ Hrun) as (Hlen & _ & Hshape).
    split; assumption.
Qed.


(** *** INTERSECT and EXCEPT (C2) *)

(** C2. With both children planned, a tlist and a non-empty group list at
    hand, a chooser answer and a SetOp command: generate_nonunion_path puts
    the left child (planned with flag 0) first for EXCEPT whatever the group
    estimates are; for INTERSECT it puts the left child first exactly when
    dLeftGroups <= dRightGroups and the right child first otherwise; the
    chooser is asked with dNumGroups = dLeftGroups for EXCEPT and
    Min(dLeftGroups, dRightGroups) for INTERSECT; and the SetOp path sits on
    a Sort over the Append exactly when the chooser rejected hashing, else
    directly on the Append. *)
Theorem nonunion_path_order (op : SetOperationStmt) (larg rarg : SetOpTree)
    (refnames_tlist : list TargetEntry) (want_groups : bool)
    (root root1 root2 : PlannerInfo)
    (lpath rpath : Path) (lpath_tlist rpath_tlist : list TargetEntry)
    (lgroups rgroups : option float)
    (tlist : list TargetEntry) (groupList : list SortGroupClause)
    (use_hash : bool) (cmd : SetOpCmd) :
  let dLeftGroups := default (unassigned_double svc) lgroups in
  let dRightGroups := default (unassigned_double svc) rgroups in
  let is_except := SetOperation_eqb (Paths.op op) SETOP_EXCEPT in
  let left_first := is_except || (dLeftGroups <=? dRightGroups)%float in
  let pathlist := if left_first then [lpath; rpath] else [rpath; lpath] in
  let tlist_list :=
    if left_first then [lpath_tlist; rpath_tlist]
    else [rpath_tlist; lpath_tlist] in
  let firstFlag := if left_first then 0 else 1 in
  let root3 := set_tuple_fraction root2 (tuple_fraction root) in
  let append :=
    MkPath (T_AppendPath pathlist) (Some (create_pathtarget tlist)) in
  let dNumGroups :=
    if is_except then dLeftGroups else Min dLeftGroups dRightGroups in
  let dNumOutputRows :=
    if is_except then (if all op then path_rows svc lpath else dLeftGroups)
    else (if all op then Min (path_rows svc lpath) (path_rows svc rpath)
          else Min dLeftGroups dRightGroups) in
  recurse_set_operations larg (colTypes op) (colCollations op) false 0
    refnames_tlist true (set_tuple_fraction root 0%float)
    = Ok ((lpath, lpath_tlist, lgroups), root1) ->
  recurse_set_operations rarg (colTypes op) (colCollations op) false 1
    refnames_tlist true root1
    = Ok ((rpath, rpath_tlist, rgroups), root2) ->
  generate_append_tlist (colTypes op) (colCollations op) true tlist_list
    refnames_tlist = Ok tlist ->
  generate_setop_grouplist (groupClauses op) tlist = Ok groupList ->
  groupList <> [] ->
  choose_hashed_setop svc root3 groupList append dNumGroups dNumOutputRows
    (construct_name op) = Ok use_hash ->
  setop_cmd op = Ok cmd ->
  generate_nonunion_path op larg rarg refnames_tlist want_groups root
  = Ok ((create_setop_path
           (if use_hash then append
            else create_sort_path append
                   (make_pathkeys_for_sortclauses svc groupList tlist)
                   (-1)%float)
           cmd (if use_hash then SETOP_HASHED else SETOP_SORTED) groupList
           (Z.of_nat (length (colTypes op)) + 1)
           (if use_hash then firstFlag else -1)
           dNumGroups dNumOutputRows,
         tlist, if want_groups then Some dNumGroups else None), root3) /\
  (Paths.op op = SETOP_EXCEPT ->
     pathlist = [lpath; rpath] /\ firstFlag = 0 /\ dNumGroups = dLeftGroups) /\
  (Paths.op op = SETOP_INTERSECT ->
     ((dLeftGroups <=? dRightGroups)%float = true ->
        pathlist = [lpath; rpath] /\ firstFlag = 0) /\
     ((dLeftGroups <=? dRightGroups)%float = false ->
        pathlist = [rpath; lpath] /\ firstFlag = 1) /\
     (firstFlag = 0 <-> (dLeftGroups <=? dRightGroups)%float = true) /\
     dNumGroups = Min dLeftGroups dRightGroups).
Proof.
  intros dLeftGroups dRightGroups is_except left_first pathlist tlist_list
         firstFlag root3 append dNumGroups dNumOutputRows
         Hl Hr Htlist Hgroup Hnonnil Hchoose Hcmd.
  split; [|split].
  - unfold generate_nonunion_path, generate_nonunion_path_with.
    run_plan. rewrite Hl. run_plan. rewrite Hr. run_plan.
    fold dLeftGroups dRightGroups is_except left_first.
    assert (Hsel :
      (if left_first
       then ([lpath; rpath], [lpath_tlist; rpath_tlist], 0)
       else ([rpath; lpath], [rpath_tlist; lpath_tlist], 1))
      = (pathlist, tlist_list, firstFlag))
      by (unfold pathlist, tlist_list, firstFlag; destruct left_first;
          reflexivity).
    rewrite Hsel. run_plan. rewrite Htlist. run_plan. rewrite Hgroup. run_plan.
    destruct groupList as [|sgc groupList']; [done|]. cbn [is_nil].
    set (gl := sgc :: groupList') in *.
    assert (Hnum :
      (if is_except
       then (dLeftGroups, if all op then path_rows svc lpath else dLeftGroups)
       else (Min dLeftGroups dRightGroups,
             if all op then Min (path_rows svc lpath) (path_rows svc rpath)
             else Min dLeftGroups dRightGroups))
      = (dNumGroups, dNumOutputRows))
      by (unfold dNumGroups, dNumOutputRows; destruct is_except; reflexivity).
    rewrite Hnum. run_plan.
    change (set_pathtarget (create_append_path pathlist)
                           (create_pathtarget tlist)) with append.
    fold root3. rewrite Hchoose. run_plan. rewrite Hcmd. run_plan.
    destruct use_hash; reflexivity.
  - intros Hop. unfold pathlist, firstFlag, dNumGroups, left_first, is_except.
    rewrite Hop. cbn. done.
  - intros Hop. unfold pathlist, firstFlag, dNumGroups, left_first, is_except.
    rewrite Hop.
    change (SetOperation_eqb SETOP_INTERSECT SETOP_EXCEPT) with false.
    cbn [orb].
    destruct (dLeftGroups <=? dRightGroups)%float.
    + repeat split; try done.
    + repeat split; try done.
Qed.

(** *** Recursive UNION (C4) *)

Lemma setop_grouplist_loop_never_raises (targetlist : list TargetEntry) :
  forall lg visited e, setop_grouplist_loop lg targetlist visited <> Raise e.
Proof.
  induction targetlist as [|tle rest IH]; intros lg visited e; [done|].
  cbn [setop_grouplist_loop]. destruct (resjunk tle); [apply IH|].
  destruct lg; [done|apply IH].
Qed.

(** C4. generate_recursion_path on something other than a UNION raises the
    internal error "only UNION queries can be recursive".  On a UNION whose
    two arguments were planned and whose tlist was built: UNION ALL hands an
    empty grouping list and a group estimate of 0 to the recursive-union
    path; a non-ALL UNION raises the feature-not-supported error "could not
    implement recursive UNION" exactly when its grouping list is not
    hashable. *)
Theorem recursion_path_errors (setOp : SetOperationStmt)
    (larg rarg : SetOpTree) (refnames_tlist : list TargetEntry)
    (root : PlannerInfo) :
  let result := generate_recursion_path setOp larg rarg refnames_tlist root in
  let not_hashable_error :=
    mkError ERRCODE_FEATURE_NOT_SUPPORTED "could not implement recursive UNION"
            [] (Some "All column datatypes must be hashable."%string) in
  (op setOp <> SETOP_UNION ->
     result = Raise (mkError ERRCODE_INTERNAL_ERROR
                             "only UNION queries can be recursive" [] None)) /\
  (op setOp = SETOP_UNION ->
   forall lpath lpath_tlist lgroups root1 rpath rpath_tlist rgroups root2 tlist,
     recurse_set_operations larg (colTypes setOp) (colCollations setOp)
       false (-1) refnames_tlist false root
       = Ok ((lpath, lpath_tlist, lgroups), root1) ->
     recurse_set_operations rarg (colTypes setOp) (colCollations setOp)
       false (-1) refnames_tlist false
       (set_non_recursive_path root1 (Some lpath))
       = Ok ((rpath, rpath_tlist, rgroups), root2) ->
     generate_append_tlist (colTypes setOp) (colCollations setOp) false
       [lpath_tlist; rpath_tlist] refnames_tlist = Ok tlist ->
     let root3 := set_non_recursive_path root2 None in
     let recursive_union groupList dNumGroups :=
       create_recursiveunion_path
         (strip_remote_subquery lpath) (strip_remote_subquery rpath)
         (create_pathtarget tlist) groupList (wt_param_id root2) dNumGroups in
     (all setOp = true ->
        result = Ok ((recursive_union [] 0%float, tlist), root3)) /\
     (all setOp = false ->
        forall groupList,
          generate_setop_grouplist (groupClauses setOp) tlist = Ok groupList ->
          (grouping_is_hashable svc groupList = false ->
             result = Raise not_hashable_error) /\
          (grouping_is_hashable svc groupList = true ->
             result = Ok ((recursive_union groupList
                             (path_rows svc lpath + path_rows svc rpath * 10)%float,
                           tlist), root3))) /\
     (result = Raise not_hashable_error <->
        all setOp = false /\
        exists groupList,
          generate_setop_grouplist (groupClauses setOp) tlist = Ok groupList /\
          grouping_is_hashable svc groupList = false)).
Proof.
  intros result not_hashable_error. split.
  - intros Hop. unfold result, generate_recursion_path.
    destruct (op setOp); try contradiction; reflexivity.
  - intros Hop lpath lpath_tlist lgroups root1 rpath rpath_tlist rgroups root2
           tlist Hl Hr Htlist root3 recursive_union.
    assert (Hres : result =
      if all setOp then Ok ((recursive_union [] 0%float, tlist), root3)
      else
        match generate_setop_grouplist (groupClauses setOp) tlist with
        | Ok groupList =>
            if grouping_is_hashable svc groupList then
              Ok ((recursive_union groupList
                     (path_rows svc lpath + path_rows svc rpath * 10)%float,
                   tlist), root3)
            else Raise not_hashable_error
        | Raise e => Raise e
        | Trap => Trap
        end).
    { unfold result, generate_recursion_path. rewrite Hop.
      change (SetOperation_eqb SETOP_UNION SETOP_UNION) with true. cbn [negb].
      run_plan. rewrite Hl. run_plan. rewrite Hr. run_plan. rewrite Htlist.
      run_plan. destruct (all setOp); run_plan; [reflexivity|].
      destruct (generate_setop_grouplist (groupClauses setOp) tlist)
        as [groupList| |]; run_plan; try reflexivity.
      destruct (grouping_is_hashable svc groupList); reflexivity. }
    split; [|split].
    + intros Hall. rewrite Hres, Hall. reflexivity.
    + intros Hall groupList Hgroup. rewrite Hres, Hall, Hgroup.
      split; intros Hh; rewrite Hh; reflexivity.
    + rewrite Hres. split.
      * intros Herr. destruct (all setOp); [discriminate|].
        split; [reflexivity|].
        destruct (generate_setop_grouplist (groupClauses setOp) tlist)
          as [groupList|e|] eqn:Hgroup; [| |discriminate].
        -- destruct (grouping_is_hashable svc groupList) eqn:Hh;
             [discriminate|].
           exists groupList. done.
        -- exfalso.
           exact (setop_grouplist_loop_never_raises _ _ _ _ Hgroup).
      * intros (Hall & groupList & Hgroup & Hh).
        rewrite Hall, Hgroup, Hh. reflexivity.
Qed.

End SetopPlanner.
End SetopPlanner.

(** ** A concrete planner configuration and concrete runs *)

Module Sample.
Import SetopTlist Chooser SetopPlanner.

(** tlist_same_datatypes of optimizer/util/tlist.c. *)
Fixpoint sample_same_datatypes (tlist : list TargetEntry) (colTypes : list Z)
    (junkOK : bool) : bool :=
  match tlist with
  | [] => is_nil colTypes
  | tle :: rest =>
      if resjunk tle then junkOK && sample_same_datatypes rest colTypes junkOK
      else
        match colTypes with
        | [] => false
        | t :: colTypes =>
            (sample_exprType (expr tle) =? t)
            && sample_same_datatypes rest colTypes junkOK
        end
  end.

Fixpoint sample_same_collations (tlist : list TargetEntry) (colls : list Z)
    (junkOK : bool) : bool :=
  match tlist with
  | [] => is_nil colls
  | tle :: rest =>
      if resjunk tle then junkOK && sample_same_collations rest colls junkOK
      else
        match colls with
        | [] => false
        | c :: colls =>
            (sample_exprCollation (expr tle) =? c)
            && sample_same_collations rest colls junkOK
        end
  end.

(** A path's row estimate: a collaborator's path carries it as its id. *)
Definition sample_rows (p : Path) : float :=
  match pathnode p with
  | T_Path id => double_of_long id
  | T_SubqueryScanPath _ (MkPath (T_Path id) _) _ => double_of_long id
  | _ => 110%float
  end.

(** compare_fractional_path_costs for a fraction outside (0, 1): total costs
    decide. *)
Definition sample_compare (a b : Cost) (fraction : float) : Z :=
  if (total_cost a <? total_cost b)%float then -1
  else if (total_cost b <? total_cost a)%float then 1
  else 0.

Definition sample_services : Services :=
  mkServices
    (forallb (fun sgc => OidIsValid (sortop sgc)))
    (forallb hashable)
    sample_same_datatypes sample_same_collations
    sample_exprType sample_exprTypmod sample_exprCollation sample_coerce
    (fun _ _ _ numGroups startup total tuples =>
       mkCost total (total + tuples * 0.25)%float)
    (fun _ input_cost tuples _ _ _ _ =>
       mkCost (input_cost + tuples * 0.5)%float
              (input_cost + tuples * 0.5)%float)
    (fun _ _ _ startup total tuples =>
       mkCost startup (total + tuples * 0.125)%float)
    sample_compare
    set_pathtarget
    sample_rows
    (fun _ => 0%float) (fun p => sample_rows p) (fun _ => 32) (fun _ => None)
    (fun q root _ =>
       Ok (mkSubRoot (hd 0 (groupingSets q)) (targetList q) true false None,
           plan_params root))
    (fun subroot _ => MkPath (T_Path (sub_id subroot)) None)
    (fun _ _ rows => rows)
    (fun groupList _ => map tleSortGroupRef groupList)
    true 4096 8 15
    sample_garbage 0%float.

Definition sample_query (varno rows : Z) : Query :=
  mkQuery
    [mkTargetEntry (Some (T_Var (makeVar varno 1 1043 14 100 0))) 1 "name" 0 false;
     mkTargetEntry (Some (T_Var (makeVar varno 2 1700 524294 0 0))) 2 "price" 0
                   false]
    [] [rows] [] false.

Definition sample_rte (varno rows : Z) : RangeTblEntry :=
  mkRTE RTE_SUBQUERY 0 0 false 0 ∅ ∅ ∅ [] ["name"; "price"]%string
        (Some (sample_query varno rows)).

Definition sample_root : PlannerInfo :=
  mkPlannerInfo [None; Some (sample_rte 1 70); Some (sample_rte 2 40);
                 Some (sample_rte 3 10)]
                0%float true [] None 0 false.

Definition sample_group_clauses : list SortGroupClause :=
  [mkSGC 0 98 664 false true; mkSGC 0 1752 1754 false true].

Definition sample_stmt (op : SetOperation) (all : bool) : SetOperationStmt :=
  mkSetOperationStmt op all [1043; 1700] [14; -1] [100; 0]
                     sample_group_clauses.

Definition sample_refnames : list TargetEntry := targetList (sample_query 1 70).


(** Two hashable and sortable columns, 100 rows in 100 groups: hashing is
    the cheaper of the two. *)
Example choose_hashed_setop_sample :
  choose_hashed_setop sample_services sample_root sample_group_clauses
    (MkPath (T_Path 100) None) 100 100 "UNION" = Ok true.
Proof. vm_compute. reflexivity. Qed.

(** A column that can be neither hashed nor sorted. *)
Example choose_hashed_setop_unsupported :
  choose_hashed_setop sample_services sample_root [mkSGC 0 98 0 false false]
    (MkPath (T_Path 100) None) 100 100 "EXCEPT"
  = could_not_implement "EXCEPT".
Proof. vm_compute. reflexivity. Qed.

Lemma choose_hashed_setop_decision_witness :
  choose_hashed_setop sample_services sample_root [mkSGC 0 98 0 false true]
    (MkPath (T_Path 100) None) 100 100 "INTERSECT" = Ok true.
Proof.
  destruct (choose_hashed_setop_decision sample_services sample_root
              [mkSGC 0 98 0 false true] (MkPath (T_Path 100) None) 100 100
              "INTERSECT") as (Hhash & _).
  apply Hhash; reflexivity.
Defined.

(** 70 groups on the left, 40 on the right: INTERSECT puts the right child
    first, EXCEPT keeps the left child first. *)
Lemma nonunion_path_order_witness :
  exists lpath rpath target groupList tlist root',
    generate_nonunion_path sample_services (sample_stmt SETOP_INTERSECT false)
      (Leaf 1) (Leaf 2) sample_refnames true sample_root
    = Ok ((create_setop_path (MkPath (T_AppendPath [rpath; lpath]) target)
             SETOPCMD_INTERSECT SETOP_HASHED groupList 3 1 40 40,
           tlist, Some 40%float), root') /\
    pathnode lpath = T_SubqueryScanPath 1 (MkPath (T_Path 70) None) None /\
    pathnode rpath = T_SubqueryScanPath 2 (MkPath (T_Path 40) None) None.
Proof.
  edestruct (nonunion_path_order sample_services
               (sample_stmt SETOP_INTERSECT false) (Leaf 1) (Leaf 2)
               sample_refnames true sample_root) as (Hrun & _).
  - lazy. reflexivity.
  - lazy. reflexivity.
  - lazy. reflexivity.
  - lazy. reflexivity.
  - discriminate.
  - lazy. reflexivity.
  - reflexivity.
  - do 6 eexists. split; [exact Hrun|]. split; reflexivity.
Defined.

Example except_keeps_left_first :
  exists lpath rpath target groupList tlist root',
    generate_nonunion_path sample_services (sample_stmt SETOP_EXCEPT false)
      (Leaf 1) (Leaf 2) sample_refnames true sample_root
    = Ok ((create_setop_path (MkPath (T_AppendPath [lpath; rpath]) target)
             SETOPCMD_EXCEPT SETOP_HASHED groupList 3 0 70 70,
           tlist, Some 70%float), root') /\
    pathnode lpath = T_SubqueryScanPath 1 (MkPath (T_Path 70) None) None /\
    pathnode rpath = T_SubqueryScanPath 2 (MkPath (T_Path 40) None) None.
Proof. do 6 eexists. split; [vm_compute; reflexivity|]. split; reflexivity. Qed.

(** The number of members when the planned path is an Append. *)
Definition append_members (r : Res (Planned * PlannerInfo)) : option nat :=
  match r with
  | Ok ((MkPath (T_AppendPath subpaths) _, _, _), _) => Some (length subpaths)
  | _ => None
  end.

(** (1 UNION ALL 2) UNION ALL 3 is one Append over three scans. *)
Lemma union_children_flattened_witness :
  append_members
    (generate_union_path sample_services (sample_stmt SETOP_UNION true)
       (Op (sample_stmt SETOP_UNION true) (Leaf 1) (Leaf 2)) (Leaf 3)
       sample_refnames false sample_root)
  = Some 3%nat.
Proof.
  destruct (union_children_flattened sample_services
              (sample_stmt SETOP_UNION true) sample_refnames)
    as (_ & _ & Hflat & _).
  rewrite (Hflat (Op (sample_stmt SETOP_UNION true) (Leaf 1) (Leaf 2)) (Leaf 3)
                 false sample_root eq_refl eq_refl
                 (conj eq_refl (conj eq_refl (conj eq_refl (conj I I)))) I).
  vm_compute. reflexivity.
Defined.

(** A UNION (not ALL) below a UNION ALL is not folded: the Append of the
    parent has two members. *)
Example union_below_union_all_kept :
  append_members
    (generate_union_path sample_services (sample_stmt SETOP_UNION true)
       (Op (sample_stmt SETOP_UNION false) (Leaf 1) (Leaf 2)) (Leaf 3)
       sample_refnames false sample_root)
  = Some 2%nat.
Proof. vm_compute. reflexivity. Qed.

Lemma recursion_path_errors_witness :
  generate_recursion_path sample_services
    (mkSetOperationStmt SETOP_UNION false [1043; 1700] [14; -1] [100; 0]
       [mkSGC 0 98 664 false true; mkSGC 0 1752 1754 false false])
    (Leaf 1) (Leaf 2) sample_refnames sample_root
  = could_not_implement_recursive_union.
Proof.
  destruct (recursion_path_errors sample_services
    (mkSetOperationStmt SETOP_UNION false [1043; 1700] [14; -1] [100; 0]
       [mkSGC 0 98 664 false true; mkSGC 0 1752 1754 false false])
    (Leaf 1) (Leaf 2) sample_refnames sample_root) as (_ & Hunion).
  edestruct (Hunion eq_refl) as (_ & Hdistinct & _).
  - lazy. reflexivity.
  - lazy. reflexivity.
  - lazy. reflexivity.
  - edestruct (Hdistinct eq_refl) as (Herr & _); [lazy; reflexivity|].
    apply Herr. reflexivity.
Defined.

Example recursion_path_not_union :
  generate_recursion_path sample_services (sample_stmt SETOP_INTERSECT false)
    (Leaf 1) (Leaf 2) sample_refnames sample_root
  = elog_ERROR "only UNION queries can be recursive" [].
Proof. reflexivity. Qed.

Example recursion_path_union_all :
  exists lpath rpath target tlist root',
    generate_recursion_path sample_services (sample_stmt SETOP_UNION true)
      (Leaf 1) (Leaf 2) sample_refnames sample_root
    = Ok ((create_recursiveunion_path lpath rpath target [] 0 0, tlist), root').
Proof. do 5 eexists. vm_compute. reflexivity. Qed.

End Sample.

(** ** Expansion of inheritance sets and partitioned tables *)

Module Inherit.
Import ColPrivs.

Record Form_pg_attribute := mkAttribute {
  attname : string;
  atttypid : Z;
  atttypmod : Z;
  attcollation : Z;
  attisdropped : bool
}.

(** A relcache entry: rd_id, the fields of rd_rel and rd_att that are read
    here, the partition descriptor's OIDs when there is one, and whether the
    relation is a temporary table of another session
    (RELATION_IS_OTHER_TEMP). *)
Record Relation := mkRelation {
  rd_id : Z;
  rd_relname : string;
  rd_relkind : Z;
  rd_reltype : Z;
  rd_att : list Form_pg_attribute;
  rd_partdesc : option (list Z);
  is_other_temp : bool
}.

Record PlanRowMark := mkPlanRowMark {
  rti : Z;
  prti : Z;
  rowmarkId : Z;
  markType : Z;
  allMarkTypes : Z;
  strength : Z;
  waitPolicy : Z;
  isParent : bool
}.

(** storage/lockdefs.h *)
Definition AccessShareLock : Z := 1.
Definition RowShareLock : Z := 2.
Definition RowExclusiveLock : Z := 3.

(** ROW_MARK_KEYSHARE of nodes/plannodes.h and the macro built on it. *)
Definition ROW_MARK_KEYSHARE : Z := 3.
Definition RowMarkRequiresRowShareLock (marktype : Z) : bool :=
  marktype <=? ROW_MARK_KEYSHARE.

(** The catalog and the other collaborators of the expander. *)
Record Catalog := mkCatalog {
  has_subclass : Z -> bool;
  find_all_inheritors : Z -> Z -> list Z;
  heap_open : Z -> Res Relation;
  SearchSysCacheAttName : Z -> string -> option Z;       (* the attnum found *)
  has_partition_attrs : Relation -> gset Z -> bool;
  select_rowmark_type : RangeTblEntry -> Z -> Z;
  FirstLowInvalidHeapAttributeNumber : Z;
  max_stack_depth : nat                                  (* check_stack_depth *)
}.

(** The parts of PlannerInfo and of its Query that the expander touches. *)
Record ExpandRoot := mkExpandRoot {
  rtable : list RangeTblEntry;                           (* root->parse->rtable *)
  resultRelation : Z;
  rowMarks : list PlanRowMark;
  append_rel_list : list AppendRelInfo;
  partColsUpdated : bool
}.

Definition set_rtable (root : ExpandRoot) (l : list RangeTblEntry) : ExpandRoot :=
  mkExpandRoot l (resultRelation root) (rowMarks root) (append_rel_list root)
               (partColsUpdated root).
Definition set_rowMarks (root : ExpandRoot) (l : list PlanRowMark) : ExpandRoot :=
  mkExpandRoot (rtable root) (resultRelation root) l (append_rel_list root)
               (partColsUpdated root).
Definition set_append_rel_list (root : ExpandRoot) (l : list AppendRelInfo)
    : ExpandRoot :=
  mkExpandRoot (rtable root) (resultRelation root) (rowMarks root) l
               (partColsUpdated root).
Definition set_partColsUpdated (root : ExpandRoot) (b : bool) : ExpandRoot :=
  mkExpandRoot (rtable root) (resultRelation root) (rowMarks root)
               (append_rel_list root) b.

Definition set_inh (rte : RangeTblEntry) (b : bool) : RangeTblEntry :=
  mkRTE (rtekind rte) (relid rte) (relkind rte) b (requiredPerms rte)
        (selectedCols rte) (insertedCols rte) (updatedCols rte)
        (securityQuals rte) (eref_colnames rte) (subquery rte).

(** [rte->inh = false] for the range table entry number [rti]. *)
Definition clear_inh (root : ExpandRoot) (rti : Z) : ExpandRoot :=
  set_rtable root
    (alter (fun rte => set_inh rte false) (Z.to_nat (rti - 1)) (rtable root)).

(** get_plan_rowmark: the position of the first mark of that rti. *)
Fixpoint get_plan_rowmark (rowmarks : list PlanRowMark) (rtindex : Z)
    : option nat :=
  match rowmarks with
  | [] => None
  | rc :: rest =>
      if rti rc =? rtindex then Some 0%nat
      else option_map S (get_plan_rowmark rest rtindex)
  end.

Section Expander.

Variable cat : Catalog.

Definition attribute_error {A} (fmt : string) (attname relname : string) : Res A :=
  elog_ERROR fmt [A_str attname; A_str relname].

Definition could_not_find_attribute : string :=
  "could not find inherited attribute " ++ dquote ++ "%s" ++ dquote
  ++ " of relation " ++ dquote ++ "%s" ++ dquote.
Definition type_mismatch : string :=
  "attribute " ++ dquote ++ "%s" ++ dquote ++ " of relation " ++ dquote
  ++ "%s" ++ dquote ++ " does not match parent's type".
Definition collation_mismatch : string :=
  "attribute " ++ dquote ++ "%s" ++ dquote ++ " of relation " ++ dquote
  ++ "%s" ++ dquote ++ " does not match parent's collation".

(** TupleDescAttr(tupdesc, i) *)
Definition TupleDescAttr (tupdesc : list Form_pg_attribute) (i : Z)
    : Res Form_pg_attribute :=
  list_nth tupdesc i.

(** The search for the child's column of one live parent column: the column
    after the previous match when it has the name, else the syscache. *)
Definition find_child_attribute (newrelation : Relation) (att_name : string)
    (new_attno : Z) : Res (Z * Form_pg_attribute) :=
  let new_tupdesc := rd_att newrelation in
  let newnatts := Z.of_nat (length new_tupdesc) in
  let by_name : Res (Z * Form_pg_attribute) :=
    match SearchSysCacheAttName cat (rd_id newrelation) att_name with
    | None =>
        attribute_error could_not_find_attribute att_name
                        (rd_relname newrelation)
    | Some attnum =>
        let new_attno := attnum - 1 in
        let? att := TupleDescAttr new_tupdesc new_attno in
        Ok (new_attno, att)
    end in
  if new_attno >=? newnatts then by_name
  else
    let? att := TupleDescAttr new_tupdesc new_attno in
    if attisdropped att || negb (String.eqb att_name (attname att))
    then by_name
    else Ok (new_attno, att).

(** The loop of make_inh_translation_list over the parent's attributes. *)
Fixpoint inh_translation_loop (same_relation : bool) (newrelation : Relation)
    (newvarno : Z) (old_attrs : list Form_pg_attribute)
    (old_attno new_attno : Z) (vars : list (option Var))
    : Res (list (option Var)) :=
  match old_attrs with
  | [] => Ok vars
  | att :: old_attrs =>
      if attisdropped att then
        (* Just put NULL into this list entry *)
        inh_translation_loop same_relation newrelation newvarno old_attrs
                             (old_attno + 1) new_attno (vars ++ [None])
      else if same_relation then
        inh_translation_loop same_relation newrelation newvarno old_attrs
          (old_attno + 1) new_attno
          (vars ++ [Some (makeVar newvarno (AttrNumber_of_int (old_attno + 1))
                                  (atttypid att) (atttypmod att)
                                  (attcollation att) 0)])
      else
        let? (new_attno, newatt) :=
          find_child_attribute newrelation (attname att) new_attno in
        (* Found it, check type and collation match *)
        if negb (atttypid att =? atttypid newatt)
           || negb (atttypmod att =? atttypmod newatt)
        then attribute_error type_mismatch (attname att)
                             (rd_relname newrelation)
        else if negb (attcollation att =? attcollation newatt)
        then attribute_error collation_mismatch (attname att)
                             (rd_relname newrelation)
        else
          inh_translation_loop same_relation newrelation newvarno old_attrs
            (old_attno + 1) (new_attno + 1)
            (vars ++ [Some (makeVar newvarno (AttrNumber_of_int (new_attno + 1))
                                    (atttypid att) (atttypmod att)
                                    (attcollation att) 0)])
  end.

(** make_inh_translation_list; the two relcache pointers are equal exactly
    when they are entries of the same relation. *)
Definition make_inh_translation_list (oldrelation newrelation : Relation)
    (newvarno : Z) : Res (list (option Var)) :=
  inh_translation_loop (rd_id oldrelation =? rd_id newrelation) newrelation
                       newvarno (rd_att oldrelation) 0 0 [].

Definition translate_privs (privs : gset Z) (vars : list (option Var))
    : Res (gset Z) :=
  translate_col_privs (FirstLowInvalidHeapAttributeNumber cat) privs vars.

(** expand_single_inheritance_child.  [parentRTindex] also names parentrte,
    the range table entry of that number; [top_parentrc] is the position of
    the top parent's PlanRowMark in root->rowMarks.  Returns the new root,
    *appinfos and *childRTindex_p. *)
Definition expand_single_inheritance_child (root : ExpandRoot)
    (parentRTindex : Z) (parentrel : Relation) (top_parentrc : option nat)
    (childrel : Relation) (appinfos : list AppendRelInfo)
    : Res (ExpandRoot * list AppendRelInfo * Z) :=
  let parentOID := rd_id parentrel in
  let childOID := rd_id childrel in
  let? parentrte := rt_fetch parentRTindex (rtable root) in
  (* Build an RTE for the child, and attach to query's rangetable list *)
  let child_inh :=
    negb (childOID =? parentOID)
    && (rd_relkind childrel =? RELKIND_PARTITIONED_TABLE) in
  let childrte :=
    mkRTE (rtekind parentrte) childOID (rd_relkind childrel) child_inh 0
          (selectedCols parentrte) (insertedCols parentrte)
          (updatedCols parentrte) [] (eref_colnames parentrte)
          (subquery parentrte) in
  let childRTindex := Z.of_nat (length (rtable root)) + 1 in
  let? (childrte, appinfos) :=
    (if negb (relkind childrte =? RELKIND_PARTITIONED_TABLE) || inh childrte then
       let? vars := make_inh_translation_list parentrel childrel childRTindex in
       let appinfo :=
         mkAppendRelInfo parentRTindex childRTindex (rd_reltype parentrel)
                         (rd_reltype childrel) (map (option_map T_Var) vars)
                         parentOID in
       let appinfos := appinfos ++ [appinfo] in
       (* Translate the column permissions bitmaps to the child's attnums *)
       if negb (childOID =? parentOID) then
         let? selected := translate_privs (selectedCols parentrte) vars in
         let? inserted := translate_privs (insertedCols parentrte) vars in
         let? updated := translate_privs (updatedCols parentrte) vars in
         Ok (mkRTE (rtekind childrte) (relid childrte) (relkind childrte)
                   (inh childrte) (requiredPerms childrte) selected inserted
                   updated (securityQuals childrte) (eref_colnames childrte)
                   (subquery childrte),
             appinfos)
       else Ok (childrte, appinfos)
     else Ok (childrte, appinfos)) in
  let root := set_rtable root (rtable root ++ [childrte]) in
  (* Build a PlanRowMark if parent is marked FOR UPDATE/SHARE *)
  match top_parentrc with
  | None => Ok (root, appinfos, childRTindex)
  | Some k =>
      match rowMarks root !! k with
      | None => Trap
      | Some top =>
          let mark := select_rowmark_type cat childrte (strength top) in
          let childrc :=
            mkPlanRowMark childRTindex (rti top) (rowmarkId top) mark
                          (Z.shiftl 1 mark) (strength top) (waitPolicy top)
                          (relkind childrte =? RELKIND_PARTITIONED_TABLE) in
          (* Include child's rowmark type in top parent's allMarkTypes *)
          let top :=
            mkPlanRowMark (rti top) (prti top) (rowmarkId top) (markType top)
                          (Z.lor (allMarkTypes top) (allMarkTypes childrc))
                          (strength top) (waitPolicy top) (isParent top) in
          let root :=
            set_rowMarks root (<[k := top]> (rowMarks root) ++ [childrc]) in
          Ok (root, appinfos, childRTindex)
      end
  end.

(** The type of expand_partitioned_rtentry with its stack budget applied. *)
Definition expand_partitioned_fn : Type :=
  ExpandRoot -> Z -> Relation -> option nat -> Z -> list AppendRelInfo ->
  Res (ExpandRoot * list AppendRelInfo).

(** The loop of expand_partitioned_rtentry over partdesc->oids; [recurse]
    expands a partition that is itself partitioned. *)
Fixpoint expand_partitions (recurse : expand_partitioned_fn)
    (oids : list Z) (root : ExpandRoot) (parentRTindex : Z)
    (parentrel : Relation) (top_parentrc : option nat) (lockmode : Z)
    (appinfos : list AppendRelInfo) (has_child : bool)
    : Res (ExpandRoot * list AppendRelInfo * bool) :=
  match oids with
  | [] => Ok (root, appinfos, has_child)
  | childOID :: oids =>
      (* Open rel; we already have required locks *)
      let? childrel := heap_open cat childOID in
      (* As in expand_inherited_rtentry, skip non-local temp tables *)
      if is_other_temp childrel then
        expand_partitions recurse oids root parentRTindex parentrel
                          top_parentrc lockmode appinfos has_child
      else
        (* We have a real partition *)
        let? (root, appinfos, childRTindex) :=
          expand_single_inheritance_child root parentRTindex parentrel
                                          top_parentrc childrel appinfos in
        (* If this child is itself partitioned, recurse *)
        let? (root, appinfos) :=
          (if rd_relkind childrel =? RELKIND_PARTITIONED_TABLE
           then recurse root childRTindex childrel top_parentrc lockmode appinfos
           else Ok (root, appinfos)) in
        expand_partitions recurse oids root parentRTindex parentrel
                          top_parentrc lockmode appinfos true
  end.

Definition stack_depth_exceeded {A} : Res A :=
  Raise (mkError (ERRCODE_EXTERNAL 0) "stack depth limit exceeded" [] None).

(** expand_partitioned_rtentry; [depth] is the stack that check_stack_depth
    still accepts. *)
Fixpoint expand_partitioned_rtentry (depth : nat) (root : ExpandRoot)
    (parentRTindex : Z) (parentrel : Relation) (top_parentrc : option nat)
    (lockmode : Z) (appinfos : list AppendRelInfo) {struct depth}
    : Res (ExpandRoot * list AppendRelInfo) :=
  match depth with
  | O => stack_depth_exceeded
  | S depth =>
      let? oids := (match rd_partdesc parentrel with
                    | Some oids => Ok oids
                    | None => Trap
                    end) in
      let? parentrte := rt_fetch parentRTindex (rtable root) in
      (* Note down whether any partition key cols are being updated *)
      let root :=
        if negb (partColsUpdated root) then
          set_partColsUpdated root
            (has_partition_attrs cat parentrel (updatedCols parentrte))
        else root in
      (* First expand the partitioned table itself *)
      let? (root, appinfos, _) :=
        expand_single_inheritance_child root parentRTindex parentrel
                                        top_parentrc parentrel appinfos in
      let? (root, appinfos, has_child) :=
        expand_partitions (expand_partitioned_rtentry depth) oids root
                          parentRTindex parentrel top_parentrc lockmode
                          appinfos false in
      (* no partitions, or all of them temporary tables of other backends *)
      if negb has_child then Ok (clear_inh root parentRTindex, appinfos)
      else Ok (root, appinfos)
  end.

(** The foreach over inhOIDs of expand_inherited_rtentry. *)
Fixpoint expand_inheritors (inhOIDs : list Z) (root : ExpandRoot) (rti : Z)
    (oldrelation : Relation) (oldrc : option nat)
    (appinfos : list AppendRelInfo)
    : Res (ExpandRoot * list AppendRelInfo) :=
  match inhOIDs with
  | [] => Ok (root, appinfos)
  | childOID :: inhOIDs =>
      let parentOID := rd_id oldrelation in
      (* Open rel if needed; we already have required locks *)
      let? newrelation :=
        (if negb (childOID =? parentOID) then heap_open cat childOID
         else Ok oldrelation) in
      (* temp tables of other backends are silently ignored *)
      if negb (childOID =? parentOID) && is_other_temp newrelation then
        expand_inheritors inhOIDs root rti oldrelation oldrc appinfos
      else
        let? (root, appinfos, _) :=
          expand_single_inheritance_child root rti oldrelation oldrc
                                          newrelation appinfos in
        expand_inheritors inhOIDs root rti oldrelation oldrc appinfos
  end.

(** The lock to take on every child: RowExclusiveLock under the query's
    result relation, RowShareLock under FOR UPDATE/SHARE, else
    AccessShareLock. *)
Definition child_lockmode (root : ExpandRoot) (rti : Z) (oldrc : option nat)
    : Res Z :=
  if rti =? resultRelation root then Ok RowExclusiveLock
  else
    match oldrc with
    | Some k =>
        match rowMarks root !! k with
        | Some rc =>
            Ok (if RowMarkRequiresRowShareLock (markType rc)
                then RowShareLock else AccessShareLock)
        | None => Trap
        end
    | None => Ok AccessShareLock
    end.

(** [oldrc->isParent = true] *)
Definition mark_parent (root : ExpandRoot) (oldrc : option nat) : ExpandRoot :=
  match oldrc with
  | Some k =>
      set_rowMarks root
        (alter (fun rc =>
                  mkPlanRowMark (rti rc) (prti rc) (rowmarkId rc) (markType rc)
                                (allMarkTypes rc) (strength rc) (waitPolicy rc)
                                true)
               k (rowMarks root))
  | None => root
  end.

(** expand_inherited_rtentry(root, rte, rti), called as
    expand_inherited_tables does, with [rte] the entry number [rti] of the
    range table. *)
Definition expand_inherited_rtentry (root : ExpandRoot) (rti : Z)
    : Res ExpandRoot :=
  let? rte := rt_fetch rti (rtable root) in
  (* Does RT entry allow inheritance? *)
  if negb (inh rte) then Ok root
  else
    match rtekind rte with
    | RTE_RELATION =>
        (* Fast path for common case of childless table *)
        let parentOID := relid rte in
        if negb (has_subclass cat parentOID) then Ok (clear_inh root rti)
        else
          let oldrc := get_plan_rowmark (rowMarks root) rti in
          let? lockmode := child_lockmode root rti oldrc in
          (* Scan for all members of inheritance set, acquire needed locks *)
          let inhOIDs := find_all_inheritors cat parentOID lockmode in
          if Z.of_nat (length inhOIDs) <? 2 then Ok (clear_inh root rti)
          else
            let root := mark_parent root oldrc in
            let? oldrelation := heap_open cat parentOID in
            match rd_partdesc oldrelation with
            | Some _ =>
                let? (root, appinfos) :=
                  expand_partitioned_rtentry (max_stack_depth cat) root rti
                    oldrelation oldrc lockmode (append_rel_list root) in
                Ok (set_append_rel_list root appinfos)
            | None =>
                let? (root, appinfos) :=
                  expand_inheritors inhOIDs root rti oldrelation oldrc [] in
                if Z.of_nat (length appinfos) <? 2 then Ok (clear_inh root rti)
                else
                  Ok (set_append_rel_list root
                        (append_rel_list root ++ appinfos))
            end
    | _ => Ok root
    end.

(** expand_inherited_tables: scan as far as the original end of the rtable. *)
Fixpoint expand_rtes (count : nat) (rti : Z) (root : ExpandRoot)
    : Res ExpandRoot :=
  match count with
  | O => Ok root
  | S count =>
      let? root := expand_inherited_rtentry root rti in
      expand_rtes count (rti + 1) root
  end.

Definition expand_inherited_tables (root : ExpandRoot) : Res ExpandRoot :=
  expand_rtes (length (rtable root)) 1 root.


(** *** When the expansion falls back to the no-inheritance case (C7) *)

(** The entry number [rti] has lost its inh flag and the append_rel_list is
    as it was. *)
Definition degraded (root root' : ExpandRoot) (rti : Z) : Prop :=
  (exists rte', rtable root' !! Z.to_nat (rti - 1) = Some rte' /\
                inh rte' = false) /\
  append_rel_list root' = append_rel_list root.

(** An enumerated relation that the inheritance loop does not skip: the
    parent itself, or a relation that is not a temp table of another
    session. *)
Definition is_kept (parentOID oid : Z) : bool :=
  (oid =? parentOID)
  || match heap_open cat oid with
     | Ok rel => negb (is_other_temp rel)
     | _ => false
     end.

Definition has_real_partition (oids : list Z) : bool :=
  existsb (fun oid => match heap_open cat oid with
                      | Ok rel => negb (is_other_temp rel)
                      | _ => false
                      end) oids.

(** The three situations the claim lists, for the relation of entry [rte]. *)
Definition listed_situations (root : ExpandRoot) (rti : Z)
    (rte : RangeTblEntry) : Prop :=
  has_subclass cat (relid rte) = false \/
  exists lockmode,
    child_lockmode root rti (get_plan_rowmark (rowMarks root) rti)
      = Ok lockmode /\
    let inhOIDs := find_all_inheritors cat (relid rte) lockmode in
    (Z.of_nat (length inhOIDs) < 2 \/
     exists oldrelation,
       heap_open cat (relid rte) = Ok oldrelation /\
       rd_partdesc oldrelation = None /\
       Z.of_nat (length (List.filter (is_kept (relid rte)) inhOIDs)) < 2).

(** The partitioned table has no partition, or only temp tables of other
    sessions. *)
Definition partition_situation (root : ExpandRoot) (rti : Z)
    (rte : RangeTblEntry) : Prop :=
  has_subclass cat (relid rte) = true /\
  exists lockmode oldrelation oids,
    child_lockmode root rti (get_plan_rowmark (rowMarks root) rti)
      = Ok lockmode /\
    2 <= Z.of_nat (length (find_all_inheritors cat (relid rte) lockmode)) /\
    heap_open cat (relid rte) = Ok oldrelation /\
    rd_partdesc oldrelation = Some oids /\
    has_real_partition oids = false.

(** heap_open hands back the relation asked for, and a relation has a
    partition descriptor exactly when it is a partitioned table. *)
Definition catalog_consistent : Prop :=
  forall oid rel, heap_open cat oid = Ok rel ->
    rd_id rel = oid /\
    (rd_partdesc rel = None <-> rd_relkind rel <> RELKIND_PARTITIONED_TABLE).

(** Entries below the old end of the range table are untouched. *)
Definition rtable_extended (root root' : ExpandRoot) : Prop :=
  (length (rtable root) <= length (rtable root'))%nat /\
  forall j : nat, (j < length (rtable root))%nat ->
    rtable root' !! j = rtable root !! j.

Lemma rtable_extended_refl (root : ExpandRoot) : rtable_extended root root.
Proof. split; [lia|done]. Qed.

Lemma rtable_extended_trans (a b c : ExpandRoot) :
  rtable_extended a b -> rtable_extended b c -> rtable_extended a c.
Proof.
  intros [Hab1 Hab2] [Hbc1 Hbc2]. split; [lia|].
  intros j Hj. rewrite Hbc2 by lia. by apply Hab2.
Qed.

Lemma rt_fetch_lookup (rti : Z) (l : list RangeTblEntry) (rte : RangeTblEntry) :
  rt_fetch rti l = Ok rte ->
  1 <= rti /\ l !! Z.to_nat (rti - 1) = Some rte.
Proof.
  unfold rt_fetch, list_nth. intros H.
  destruct (Z.ltb_spec (rti - 1) 0); [discriminate|].
  destruct (l !! Z.to_nat (rti - 1)) eqn:Hl; [|discriminate].
  injection H as ->. split; [lia|done].
Qed.

Lemma clear_inh_degraded (root : ExpandRoot) (rti : Z) (rte : RangeTblEntry) :
  rt_fetch rti (rtable root) = Ok rte -> degraded root (clear_inh root rti) rti.
Proof.
  intros Hrte. apply rt_fetch_lookup in Hrte as [_ Hl].
  split; [|reflexivity]. exists (set_inh rte false). split; [|reflexivity].
  cbn. rewrite list_lookup_alter_eq, Hl. reflexivity.
Qed.

(** What one call of expand_single_inheritance_child does to the root and to
    the list of AppendRelInfos. *)
Lemma expand_single_inheritance_child_frame (root : ExpandRoot)
    (parentRTindex : Z) (parentrel : Relation) (top_parentrc : option nat)
    (childrel : Relation) (appinfos : list AppendRelInfo)
    (root' : ExpandRoot) (appinfos' : list AppendRelInfo) (childRTindex : Z) :
  expand_single_inheritance_child root parentRTindex parentrel top_parentrc
                                  childrel appinfos
    = Ok (root', appinfos', childRTindex) ->
  let builds :=
    negb (rd_relkind childrel =? RELKIND_PARTITIONED_TABLE)
    || (negb (rd_id childrel =? rd_id parentrel)
        && (rd_relkind childrel =? RELKIND_PARTITIONED_TABLE)) in
  (exists childrte, rtable root' = rtable root ++ [childrte]) /\
  childRTindex = Z.of_nat (length (rtable root)) + 1 /\
  append_rel_list root' = append_rel_list root /\
  (builds = true -> exists appinfo, appinfos' = appinfos ++ [appinfo]) /\
  (builds = false -> appinfos' = appinfos).
Proof.
  intros Hrun builds. unfold expand_single_inheritance_child in Hrun.
  destruct (rt_fetch parentRTindex (rtable root)) as [parentrte| |];
    cbn [rbind] in Hrun; try discriminate.
  cbn [relkind inh] in Hrun. fold builds in Hrun.
  destruct builds.
  - destruct (make_inh_translation_list parentrel childrel _) as [vars| |];
      cbn [rbind] in Hrun; try discriminate.
    destruct (negb (rd_id childrel =? rd_id parentrel)).
    + destruct (translate_privs (selectedCols parentrte) vars) as [sel| |];
        cbn [rbind] in Hrun; try discriminate.
      destruct (translate_privs (insertedCols parentrte) vars) as [ins| |];
        cbn [rbind] in Hrun; try discriminate.
      destruct (translate_privs (updatedCols parentrte) vars) as [upd| |];
        cbn [rbind] in Hrun; try discriminate.
      destruct top_parentrc as [k|].
      * cbn [rowMarks set_rtable] in Hrun.
        destruct (rowMarks root !! k); [|discriminate].
        injection Hrun as <- <- <-. cbn.
        repeat split; eauto; discriminate.
      * injection Hrun as <- <- <-. cbn.
        repeat split; eauto; discriminate.
    + cbn [rbind] in Hrun. destruct top_parentrc as [k|].
      * cbn [rowMarks set_rtable] in Hrun.
        destruct (rowMarks root !! k); [|discriminate].
        injection Hrun as <- <- <-. cbn.
        repeat split; eauto; discriminate.
      * injection Hrun as <- <- <-. cbn.
        repeat split; eauto; discriminate.
  - cbn [rbind] in Hrun. destruct top_parentrc as [k|].
    + cbn [rowMarks set_rtable] in Hrun.
      destruct (rowMarks root !! k); [|discriminate].
      injection Hrun as <- <- <-. cbn.
      repeat split; eauto; discriminate.
    + injection Hrun as <- <- <-. cbn.
      repeat split; eauto; discriminate.
Qed.

Lemma expand_single_extends (root : ExpandRoot)
    (parentRTindex : Z) (parentrel : Relation) (top_parentrc : option nat)
    (childrel : Relation) (appinfos : list AppendRelInfo)
    (root' : ExpandRoot) (appinfos' : list AppendRelInfo) (childRTindex : Z) :
  expand_single_inheritance_child root parentRTindex parentrel top_parentrc
                                  childrel appinfos
    = Ok (root', appinfos', childRTindex) ->
  rtable_extended root root' /\
  length (rtable root') = S (length (rtable root)).
Proof.
  intros Hrun.
  destruct (expand_single_inheritance_child_frame _ _ _ _ _ _ _ _ _ Hrun)
    as ([childrte Hrt] & _).
  unfold rtable_extended. rewrite Hrt. split; [split|].
  - rewrite length_app. lia.
  - intros j Hj. by apply lookup_app_l.
  - rewrite length_app. cbn. lia.
Qed.


(** The inheritance loop builds one AppendRelInfo per relation it keeps. *)
Lemma expand_inheritors_frame (rti : Z) (oldrelation : Relation)
    (oldrc : option nat) :
  catalog_consistent ->
  rd_relkind oldrelation <> RELKIND_PARTITIONED_TABLE ->
  forall (inhOIDs : list Z) (root : ExpandRoot) (appinfos : list AppendRelInfo)
         (root' : ExpandRoot) (appinfos' : list AppendRelInfo),
  expand_inheritors inhOIDs root rti oldrelation oldrc appinfos
    = Ok (root', appinfos') ->
  rtable_extended root root' /\
  append_rel_list root' = append_rel_list root /\
  length appinfos' =
    (length appinfos
     + length (List.filter (is_kept (rd_id oldrelation)) inhOIDs))%nat.
Proof.
  intros Hcat Hkind.
  assert (Hpk : (rd_relkind oldrelation =? RELKIND_PARTITIONED_TABLE) = false)
    by (by apply Z.eqb_neq).
  induction inhOIDs as [|childOID inhOIDs IH];
    intros root appinfos root' appinfos' Hrun.
  - cbn in Hrun. injection Hrun as <- <-.
    split; [apply rtable_extended_refl|]. split; [done|]. cbn. lia.
  - cbn [expand_inheritors] in Hrun. cbn [List.filter]. unfold is_kept at 1.
    destruct (Z.eqb_spec childOID (rd_id oldrelation)) as [Heq|Hne];
      cbn [negb andb orb rbind] in Hrun |- *.
    + destruct (expand_single_inheritance_child root rti oldrelation oldrc
                  oldrelation appinfos) as [[[root1 ai1] cidx]| |] eqn:Hsingle;
        cbn [rbind] in Hrun; try discriminate.
      destruct (expand_single_inheritance_child_frame _ _ _ _ _ _ _ _ _ Hsingle)
        as (_ & _ & Harl & Hbuilt & _).
      destruct (expand_single_extends _ _ _ _ _ _ _ _ _ Hsingle) as [Hext _].
      destruct Hbuilt as [a ->]; [by rewrite Hpk|].
      apply IH in Hrun as (Hext' & Harl' & Hlen).
      split; [by eapply rtable_extended_trans|]. split; [congruence|].
      rewrite Hlen, length_app. cbn. lia.
    + destruct (heap_open cat childOID) as [newrel| |] eqn:Hopen;
        cbn [rbind] in Hrun; try discriminate.
      destruct (is_other_temp newrel) eqn:Htemp; cbn [negb] in Hrun |- *.
      * apply IH in Hrun as (Hext' & Harl' & Hlen).
        split; [done|]. split; [done|]. rewrite Hlen. lia.
      * destruct (expand_single_inheritance_child root rti oldrelation oldrc
                    newrel appinfos) as [[[root1 ai1] cidx]| |] eqn:Hsingle;
          cbn [rbind] in Hrun; try discriminate.
        destruct (expand_single_inheritance_child_frame _ _ _ _ _ _ _ _ _ Hsingle)
          as (_ & _ & Harl & Hbuilt & _).
        destruct (expand_single_extends _ _ _ _ _ _ _ _ _ Hsingle) as [Hext _].
        destruct Hbuilt as [a ->].
        { destruct (Hcat _ _ Hopen) as [Hid _]. rewrite Hid.
          destruct (Z.eqb_spec childOID (rd_id oldrelation)); [done|].
          cbn. by destruct (rd_relkind newrel =? RELKIND_PARTITIONED_TABLE). }
        apply IH in Hrun as (Hext' & Harl' & Hlen).
        split; [by eapply rtable_extended_trans|]. split; [congruence|].
        rewrite Hlen, length_app. cbn. lia.
Qed.

(** Entries below the old end are untouched, entry number [idx] apart. *)
Definition rtable_extended_except (root root' : ExpandRoot) (idx : Z) : Prop :=
  (length (rtable root) <= length (rtable root'))%nat /\
  forall j : nat, (j < length (rtable root))%nat -> j <> Z.to_nat (idx - 1) ->
    rtable root' !! j = rtable root !! j.

Definition keeps_frame (recurse : expand_partitioned_fn) : Prop :=
  forall root idx rel rc lockmode appinfos root' appinfos',
    recurse root idx rel rc lockmode appinfos = Ok (root', appinfos') ->
    rtable_extended_except root root' idx /\
    append_rel_list root' = append_rel_list root.

Lemma expand_partitions_frame (recurse : expand_partitioned_fn)
    (parentRTindex : Z) (parentrel : Relation) (top_parentrc : option nat)
    (lockmode : Z) :
  keeps_frame recurse ->
  forall (oids : list Z) (root : ExpandRoot) (appinfos : list AppendRelInfo)
         (has_child : bool) (root' : ExpandRoot)
         (appinfos' : list AppendRelInfo) (has_child' : bool),
  expand_partitions recurse oids root parentRTindex parentrel top_parentrc
                    lockmode appinfos has_child
    = Ok (root', appinfos', has_child') ->
  rtable_extended root root' /\
  append_rel_list root' = append_rel_list root /\
  has_child' = has_child || has_real_partition oids /\
  (has_real_partition oids = false -> appinfos' = appinfos).
Proof.
  intros Hrec.
  induction oids as [|childOID oids IH];
    intros root appinfos has_child root' appinfos' has_child' Hrun.
  - cbn in Hrun. injection Hrun as <- <- <-.
    split; [apply rtable_extended_refl|]. split; [done|].
    split; [by rewrite orb_false_r|done].
  - cbn [expand_partitions] in Hrun. cbn [has_real_partition existsb].
    destruct (heap_open cat childOID) as [childrel| |] eqn:Hopen;
      cbn [rbind] in Hrun; try discriminate.
    destruct (is_other_temp childrel) eqn:Htemp; cbn [negb orb].
    + by apply IH in Hrun.
    + destruct (expand_single_inheritance_child root parentRTindex parentrel
                  top_parentrc childrel appinfos)
        as [[[root1 ai1] cidx]| |] eqn:Hsingle;
        cbn [rbind] in Hrun; try discriminate.
      destruct (expand_single_inheritance_child_frame _ _ _ _ _ _ _ _ _ Hsingle)
        as (_ & Hcidx & Harl & _).
      destruct (expand_single_extends _ _ _ _ _ _ _ _ _ Hsingle)
        as [Hext Hlen1].
      assert (Hstep : exists root2 ai2,
                 (if rd_relkind childrel =? RELKIND_PARTITIONED_TABLE
                  then recurse root1 cidx childrel top_parentrc lockmode ai1
                  else Ok (root1, ai1)) = Ok (root2, ai2)).
      { destruct (if rd_relkind childrel =? RELKIND_PARTITIONED_TABLE
                  then recurse root1 cidx childrel top_parentrc lockmode ai1
                  else Ok (root1, ai1)) as [[root2 ai2]| |];
          cbn [rbind] in Hrun; try discriminate. eauto. }
      destruct Hstep as (root2 & ai2 & Hstep). rewrite Hstep in Hrun.
      cbn [rbind] in Hrun.
      assert (Hext2 : rtable_extended root root2 /\
                      append_rel_list root2 = append_rel_list root).
      { destruct (rd_relkind childrel =? RELKIND_PARTITIONED_TABLE).
        - apply Hrec in Hstep as [[Hl Hsame] Harl2].
          split; [|congruence]. destruct Hext as [Hl0 Hsame0]. split; [lia|].
          intros j Hj. rewrite Hsame; [by apply Hsame0|lia|].
          rewrite Hcidx. lia.
        - injection Hstep as <- <-. done. }
      destruct Hext2 as [Hext2 Harl2].
      apply IH in Hrun as (Hext' & Harl' & Hhc & _).
      split; [by eapply rtable_extended_trans|]. split; [congruence|].
      split; [|discriminate]. rewrite Hhc. cbn. by rewrite orb_true_r.
Qed.

Lemma expand_partitioned_rtentry_frame (depth : nat) :
  keeps_frame (expand_partitioned_rtentry depth).
Proof.
  induction depth as [|depth IH];
    intros root idx rel rc lockmode appinfos root' appinfos' Hrun;
    [discriminate|].
  cbn [expand_partitioned_rtentry] in Hrun.
  destruct (rd_partdesc rel) as [oids|]; cbn [rbind] in Hrun; [|discriminate].
  destruct (rt_fetch idx (rtable root)) as [parentrte| |];
    cbn [rbind] in Hrun; try discriminate.
  set (root0 := if negb (partColsUpdated root)
                then set_partColsUpdated root _ else root) in Hrun.
  assert (Hroot0 : rtable root0 = rtable root /\
                   append_rel_list root0 = append_rel_list root)
    by (unfold root0; destruct (negb (partColsUpdated root)); done).
  destruct Hroot0 as [Hrt0 Harl0].
  destruct (expand_single_inheritance_child root0 idx rel rc rel appinfos)
    as [[[root1 ai1] cidx]| |] eqn:Hsingle;
    cbn [rbind] in Hrun; try discriminate.
  destruct (expand_single_inheritance_child_frame _ _ _ _ _ _ _ _ _ Hsingle)
    as (_ & _ & Harl1 & _).
  destruct (expand_single_extends _ _ _ _ _ _ _ _ _ Hsingle) as [Hext1 _].
  destruct (expand_partitions (expand_partitioned_rtentry depth) oids root1
              idx rel rc lockmode ai1 false)
    as [[[root2 ai2] hc]| |] eqn:Hloop; cbn [rbind] in Hrun; try discriminate.
  destruct (expand_partitions_frame _ _ _ _ _ IH _ _ _ _ _ _ _ Hloop)
    as (Hext2 & Harl2 & _).
  pose proof (rtable_extended_trans _ _ _ Hext1 Hext2) as [Hlen Hsame].
  rewrite Hrt0 in Hlen, Hsame.
  destruct hc; cbn [negb] in Hrun; injection Hrun as <- <-.
  - split; [|congruence]. split; [done|]. intros j Hj _. by apply Hsame.
  - split; [|cbn; congruence]. split; [cbn; by rewrite length_alter|].
    intros j Hj Hne. cbn. rewrite list_lookup_alter_ne by done.
    by apply Hsame.
Qed.

(** The top call on a partitioned table: the parent's entry keeps its inh flag
    exactly when some partition is kept. *)
Lemma expand_partitioned_rtentry_top (depth : nat) (root : ExpandRoot)
    (idx : Z) (rel : Relation) (rc : option nat) (lockmode : Z)
    (appinfos : list AppendRelInfo) (root' : ExpandRoot)
    (appinfos' : list AppendRelInfo) (oids : list Z) (rte : RangeTblEntry) :
  expand_partitioned_rtentry depth root idx rel rc lockmode appinfos
    = Ok (root', appinfos') ->
  rd_partdesc rel = Some oids ->
  rt_fetch idx (rtable root) = Ok rte ->
  append_rel_list root' = append_rel_list root /\
  (has_real_partition oids = true ->
     rtable root' !! Z.to_nat (idx - 1) = Some rte) /\
  (has_real_partition oids = false ->
     rtable root' !! Z.to_nat (idx - 1) = Some (set_inh rte false) /\
     (rd_relkind rel = RELKIND_PARTITIONED_TABLE -> appinfos' = appinfos)).
Proof.
  intros Hrun Hpart Hrte.
  destruct depth as [|depth]; [discriminate|].
  cbn [expand_partitioned_rtentry] in Hrun.
  rewrite Hpart, Hrte in Hrun. cbn [rbind] in Hrun.
  apply rt_fetch_lookup in Hrte as [Hidx Hl].
  set (root0 := if negb (partColsUpdated root)
                then set_partColsUpdated root _ else root) in Hrun.
  assert (Hroot0 : rtable root0 = rtable root /\
                   append_rel_list root0 = append_rel_list root)
    by (unfold root0; destruct (negb (partColsUpdated root)); done).
  destruct Hroot0 as [Hrt0 Harl0].
  destruct (expand_single_inheritance_child root0 idx rel rc rel appinfos)
    as [[[root1 ai1] cidx]| |] eqn:Hsingle;
    cbn [rbind] in Hrun; try discriminate.
  destruct (expand_single_inheritance_child_frame _ _ _ _ _ _ _ _ _ Hsingle)
    as (_ & _ & Harl1 & _ & Hnone).
  destruct (expand_single_extends _ _ _ _ _ _ _ _ _ Hsingle) as [Hext1 _].
  destruct (expand_partitions (expand_partitioned_rtentry depth) oids root1
              idx rel rc lockmode ai1 false)
    as [[[root2 ai2] hc]| |] eqn:Hloop; cbn [rbind] in Hrun; try discriminate.
  destruct (expand_partitions_frame _ _ _ _ _
              (expand_partitioned_rtentry_frame depth) _ _ _ _ _ _ _ Hloop)
    as (Hext2 & Harl2 & Hhc & Hsameai).
  cbn [orb] in Hhc. subst hc.
  pose proof (rtable_extended_trans _ _ _ Hext1 Hext2) as [Hlen Hsame].
  rewrite Hrt0 in Hlen, Hsame.
  assert (Hkept : rtable root2 !! Z.to_nat (idx - 1) = Some rte).
  { rewrite Hsame; [done|]. by eapply lookup_lt_Some. }
  destruct (has_real_partition oids) eqn:Hreal; cbn [negb] in Hrun;
    injection Hrun as <- <-.
  - split; [congruence|]. split; [done|discriminate].
  - split; [cbn; congruence|]. split; [discriminate|]. intros _. split.
    + cbn. by rewrite list_lookup_alter_eq, Hkept.
    + intros Hkind. rewrite (Hsameai eq_refl). apply Hnone.
      rewrite Hkind, !Z.eqb_refl. reflexivity.
Qed.


Lemma mark_parent_frame (root : ExpandRoot) (oldrc : option nat) :
  rtable (mark_parent root oldrc) = rtable root /\
  append_rel_list (mark_parent root oldrc) = append_rel_list root.
Proof. destruct oldrc; done. Qed.

Lemma not_degraded (root root' : ExpandRoot) (rti : Z) (rte : RangeTblEntry) :
  rtable root' !! Z.to_nat (rti - 1) = Some rte -> inh rte = true ->
  ~ degraded root root' rti.
Proof.
  intros Hl Hinh [(rte' & Hl' & Hinh') _]. congruence.
Qed.

(** C7, amended.  For a range table entry of a plain relation that asks for
    inheritance, over a consistent catalog, a successful
    expand_inherited_rtentry has cleared the entry's inh flag and left
    root->append_rel_list alone in exactly these situations: the relation
    has no subclasses; fewer than two relations were enumerated; the
    relation has no partition descriptor and fewer than two of the
    enumerated relations are kept (the parent, and every relation that is
    not another session's temp table); or the relation is partitioned and
    none of its partitions is kept.  A temp table of another session is
    skipped in both loops without any other effect. *)
Theorem expand_inherited_rtentry_degrades (root : ExpandRoot) (rti : Z)
    (rte : RangeTblEntry) (root' : ExpandRoot) :
  catalog_consistent ->
  rt_fetch rti (rtable root) = Ok rte ->
  inh rte = true ->
  rtekind rte = RTE_RELATION ->
  expand_inherited_rtentry root rti = Ok root' ->
  (degraded root root' rti <->
     listed_situations root rti rte \/ partition_situation root rti rte) /\
  (forall childOID rest root0 oldrelation oldrc appinfos newrelation,
     childOID <> rd_id oldrelation ->
     heap_open cat childOID = Ok newrelation ->
     is_other_temp newrelation = true ->
     expand_inheritors (childOID :: rest) root0 rti oldrelation oldrc appinfos
     = expand_inheritors rest root0 rti oldrelation oldrc appinfos) /\
  (forall recurse childOID rest root0 parentrel rc lockmode appinfos has_child
          childrel,
     heap_open cat childOID = Ok childrel ->
     is_other_temp childrel = true ->
     expand_partitions recurse (childOID :: rest) root0 rti parentrel rc
                       lockmode appinfos has_child
     = expand_partitions recurse rest root0 rti parentrel rc lockmode
                         appinfos has_child).
Proof.
  intros Hcat Hrte Hinh Hkind Hrun.
  split; [|split].
  2:{ intros childOID rest root0 oldrelation oldrc appinfos newrelation
             Hne Hopen Htemp.
      cbn [expand_inheritors].
      destruct (Z.eqb_spec childOID (rd_id oldrelation)); [done|].
      cbn [negb]. rewrite Hopen. cbn [rbind andb]. by rewrite Htemp. }
  2:{ intros recurse childOID rest root0 parentrel rc lockmode appinfos
             has_child childrel Hopen Htemp.
      cbn [expand_partitions]. rewrite Hopen. cbn [rbind]. by rewrite Htemp. }
  pose proof (rt_fetch_lookup _ _ _ Hrte) as [Hrti Hl].
  unfold expand_inherited_rtentry in Hrun.
  rewrite Hrte in Hrun. cbn [rbind] in Hrun. rewrite Hinh, Hkind in Hrun.
  cbn [negb] in Hrun.
  set (oldrc := get_plan_rowmark (rowMarks root) rti) in *.
  destruct (has_subclass cat (relid rte)) eqn:Hsub; cbn [negb] in Hrun.
  2:{ injection Hrun as <-. split.
      - intros _. left. by left.
      - intros _. by eapply clear_inh_degraded. }
  destruct (child_lockmode root rti oldrc) as [lockmode| |] eqn:Hlock;
    cbn [rbind] in Hrun; try discriminate.
  set (inhOIDs := find_all_inheritors cat (relid rte) lockmode) in *.
  destruct (Z.ltb_spec (Z.of_nat (length inhOIDs)) 2) as [Hfew|Hmany].
  { injection Hrun as <-. split.
    - intros _. left. right. exists lockmode. split; [done|]. by left.
    - intros _. by eapply clear_inh_degraded. }
  destruct (mark_parent_frame root oldrc) as [Hmrt Hmarl].
  destruct (heap_open cat (relid rte)) as [oldrelation| |] eqn:Hopen;
    cbn [rbind] in Hrun; try discriminate.
  destruct (Hcat _ _ Hopen) as [Hid Hpartkind].
  (* what the two listed alternatives and the partition one say here *)
  assert (Hlisted : listed_situations root rti rte ->
            rd_partdesc oldrelation = None /\
            Z.of_nat (length (List.filter (is_kept (relid rte)) inhOIDs)) < 2).
  { intros [Hno|(lm & Hlm & [Hlt|(rel & Hrel & Hnone & Hcount)])].
    - congruence.
    - fold oldrc in Hlm. assert (lm = lockmode) as -> by congruence.
      fold inhOIDs in Hlt. lia.
    - fold oldrc in Hlm. assert (lm = lockmode) as -> by congruence.
      assert (rel = oldrelation) as -> by congruence. done. }
  assert (Hpartition : partition_situation root rti rte ->
            exists oids, rd_partdesc oldrelation = Some oids /\
                         has_real_partition oids = false).
  { intros (_ & lm & rel & oids & _ & _ & Hrel & Hsome & Hreal).
    assert (rel = oldrelation) as -> by congruence. eauto. }
  destruct (rd_partdesc oldrelation) as [oids|] eqn:Hpart.
  - (* a partitioned table *)
    destruct (expand_partitioned_rtentry (max_stack_depth cat)
                (mark_parent root oldrc) rti oldrelation oldrc lockmode
                (append_rel_list (mark_parent root oldrc)))
      as [[root1 appinfos]| |] eqn:Hexp; cbn [rbind] in Hrun;
      try discriminate.
    injection Hrun as <-.
    assert (Hrte1 : rt_fetch rti (rtable (mark_parent root oldrc)) = Ok rte)
      by (by rewrite Hmrt).
    destruct (expand_partitioned_rtentry_top _ _ _ _ _ _ _ _ _ _ _
                Hexp Hpart Hrte1) as (Harl & Hreal & Hnoreal).
    assert (Hkindp : rd_relkind oldrelation = RELKIND_PARTITIONED_TABLE).
    { destruct (Z.eq_dec (rd_relkind oldrelation) RELKIND_PARTITIONED_TABLE)
        as [|Hne]; [done|].
      apply Hpartkind in Hne. discriminate. }
    destruct (has_real_partition oids) eqn:Hhas.
    + split.
      * intros Hdeg. exfalso.
        eapply (not_degraded root _ rti rte); [|exact Hinh|exact Hdeg].
        cbn. by apply Hreal.
      * intros [Hls|Hps].
        -- apply Hlisted in Hls as [Hnone _]. discriminate.
        -- apply Hpartition in Hps as (oids' & Hsome & Hreal').
           injection Hsome as <-. congruence.
    + destruct (Hnoreal eq_refl) as [Hentry Hai]. split.
      * intros _. right. split; [done|].
        exists lockmode, oldrelation, oids. fold oldrc inhOIDs.
        repeat split; try done; lia.
      * intros _. split.
        -- exists (set_inh rte false). split; [by cbn|reflexivity].
        -- cbn. rewrite (Hai Hkindp). exact Hmarl.
  - (* classic inheritance *)
    destruct (expand_inheritors inhOIDs (mark_parent root oldrc) rti
                oldrelation oldrc [])
      as [[root1 appinfos]| |] eqn:Hexp; cbn [rbind] in Hrun;
      try discriminate.
    assert (Hkindr : rd_relkind oldrelation <> RELKIND_PARTITIONED_TABLE)
      by (by apply Hpartkind).
    destruct (expand_inheritors_frame rti oldrelation oldrc Hcat Hkindr
                _ _ _ _ _ Hexp) as ([Hlen Hsame] & Harl & Hcount).
    rewrite Hid in Hcount. cbn [length Nat.add] in Hcount.
    assert (Hentry : rtable root1 !! Z.to_nat (rti - 1) = Some rte).
    { rewrite Hsame; rewrite Hmrt; [done|]. by eapply lookup_lt_Some. }
    destruct (Z.ltb_spec (Z.of_nat (length appinfos)) 2) as [Hlt|Hge];
      injection Hrun as <-.
    + split.
      * intros _. left. right. exists lockmode. split; [done|]. right.
        exists oldrelation. fold inhOIDs. rewrite <- Hcount. done.
      * intros _. split.
        -- exists (set_inh rte false). split; [|reflexivity].
           cbn. by rewrite list_lookup_alter_eq, Hentry.
        -- cbn. congruence.
    + split.
      * intros Hdeg. exfalso.
        by eapply (not_degraded root _ rti rte); [|exact Hinh|exact Hdeg].
      * intros [Hls|Hps].
        -- apply Hlisted in Hls as [_ Hfewkept]. lia.
        -- apply Hpartition in Hps as (oids' & Hsome & _). discriminate.
Qed.

End Expander.

(** *** A concrete catalog

    Relation 100 is a partitioned table whose only partition, 101, is a temp
    table of another session.  Relation 200 has two inheritance children:
    201, whose columns are in another order, and 202, a temp table of another
    session. *)

Definition sample_attrs : list Form_pg_attribute :=
  [mkAttribute "a" 23 (-1) 0 false; mkAttribute "b" 25 (-1) 100 false].

Definition sample_heap_open (oid : Z) : Res Relation :=
  if oid =? 100 then
    Ok (mkRelation 100 "p" RELKIND_PARTITIONED_TABLE 1100 sample_attrs
                   (Some [101]) false)
  else if oid =? 101 then
    Ok (mkRelation 101 "p1" RELKIND_RELATION 1101 sample_attrs None true)
  else if oid =? 200 then
    Ok (mkRelation 200 "t" RELKIND_RELATION 1200 sample_attrs None false)
  else if oid =? 201 then
    Ok (mkRelation 201 "t1" RELKIND_RELATION 1201
                   (mkAttribute "b" 25 (-1) 100 false :: sample_attrs)
                   None false)
  else if oid =? 202 then
    Ok (mkRelation 202 "t2" RELKIND_RELATION 1202 sample_attrs None true)
  else elog_ERROR "could not open relation with OID %u" [A_int oid].

Definition sample_catalog : Catalog :=
  mkCatalog
    (fun oid => (oid =? 100) || (oid =? 200))
    (fun oid _ => if oid =? 100 then [100; 101]
                  else if oid =? 200 then [200; 201; 202]
                  else [oid])
    sample_heap_open
    (fun relid name =>
       if relid =? 201 then
         if String.eqb name "a" then Some 2
         else if String.eqb name "b" then Some 1
         else None
       else None)
    (fun _ _ => false) (fun _ _ => 0) (-8) 100.

Definition sample_parent_rte (oid kind : Z) : RangeTblEntry :=
  mkRTE RTE_RELATION oid kind true 2 {[ 9 ]} ∅ ∅ [] ["a"; "b"]%string None.

Definition sample_expand_root : ExpandRoot :=
  mkExpandRoot [sample_parent_rte 100 RELKIND_PARTITIONED_TABLE;
                sample_parent_rte 200 RELKIND_RELATION]
               0 [] [] false.

(** The child whose columns are ordered (b, a, b'): parent column a is the
    child's column 2, so the selected-column bit 9 becomes bit 10. *)
Example make_inh_translation_list_sample :
  make_inh_translation_list sample_catalog
    (mkRelation 200 "t" RELKIND_RELATION 1200 sample_attrs None false)
    (mkRelation 201 "t1" RELKIND_RELATION 1201
                (mkAttribute "b" 25 (-1) 100 false :: sample_attrs) None false)
    4
  = Ok [Some (makeVar 4 2 23 (-1) 0 0); Some (makeVar 4 3 25 (-1) 100 0)].
Proof. vm_compute. reflexivity. Qed.

(** Classic inheritance with one kept child: the parent stays an append
    relation with two AppendRelInfos. *)
Example expand_inheritance_sample :
  exists root',
    expand_inherited_rtentry sample_catalog sample_expand_root 2 = Ok root' /\
    length (rtable root') = 4%nat /\
    option_map inh (rtable root' !! 1%nat) = Some true /\
    map (fun a => (parent_relid a, child_relid a)) (append_rel_list root')
      = [(2, 3); (2, 4)].
Proof. eexists. split; [vm_compute; reflexivity|]. repeat split. Qed.

Lemma sample_catalog_consistent : catalog_consistent sample_catalog.
Proof.
  intros oid rel Hopen. cbn in Hopen. unfold sample_heap_open in Hopen.
  repeat match type of Hopen with
         | (if ?a =? ?b then _ else _) = _ =>
             destruct (Z.eqb_spec a b) as [->|]
         end;
    try discriminate; injection Hopen as <-;
    (split; [reflexivity|]); cbn; split; intros H; try discriminate;
    try done.
Defined.

(** The claim's list of situations misses the partitioned table without a
    kept partition: here the relation has a subclass, two relations are
    enumerated and the relation has a partition descriptor, yet the inh flag
    is cleared and the append_rel_list stays empty. *)
Lemma partitioned_without_kept_partition_degrades :
  exists root',
    expand_inherited_rtentry sample_catalog sample_expand_root 1 = Ok root' /\
    degraded sample_expand_root root' 1 /\
    ~ listed_situations sample_catalog sample_expand_root 1
        (sample_parent_rte 100 RELKIND_PARTITIONED_TABLE).
Proof.
  eexists. split; [vm_compute; reflexivity|]. split.
  - split; [|reflexivity]. eexists. split; reflexivity.
  - intros [Hno|(lm & Hlm & [Hlt|(rel & Hrel & Hnone & _)])].
    + discriminate.
    + injection Hlm as <-. cbn in Hlt. lia.
    + injection Hrel as <-. discriminate.
Qed.

Lemma expand_inherited_rtentry_degrades_witness :
  match expand_inherited_rtentry sample_catalog sample_expand_root 1 with
  | Ok root' => degraded sample_expand_root root' 1
  | _ => False
  end.
Proof.
  destruct (expand_inherited_rtentry sample_catalog sample_expand_root 1)
    as [root'| |] eqn:Hrun; [|vm_compute in Hrun; discriminate..].
  destruct (expand_inherited_rtentry_degrades sample_catalog
              sample_expand_root 1
              (sample_parent_rte 100 RELKIND_PARTITIONED_TABLE) root'
              sample_catalog_consistent eq_refl eq_refl eq_refl Hrun)
    as (Hiff & _).
  apply Hiff. right. split; [reflexivity|].
  eexists 1, _, [101]. repeat split; reflexivity.
Defined.

End Inherit.
